(** * Offline cache of the site: service worker and client controller

    A shallow embedding of the caching subsystem of the site:
    - the service worker (the second document of [src/capabilities/script.js]):
      versioned cache partitions, the three retrieval strategies, the
      install / activate / fetch / message listeners;
    - the prefetch part of [UltraPerformanceOptimizer]
      ([src/unnamed/part_001]): [isInternalLink], [prefetchResource] and the
      triggers that call it;
    - of the same controller: the resource hints of the bootstrap,
      [throttle] and [debounce], the performance metrics, and the
      activation of deferred content.

    The browser is modelled by a small platform layer: cache storage is a
    finite map from partition names to finite maps from absolute URLs to
    responses, the network is a function from an absolute URL to a reply (a
    latency and either a response or a failure), a URL string given by the
    code is resolved at the worker's location before it is fetched or used
    as a key, the cache refuses a partial response, a timer waits for the
    delay [setTimeout] makes of its argument, and an [async] function is a
    state-passing computation that either fulfils or rejects. *)

From Stdlib Require Import ZArith NArith String List Lia Sorted.
From stdpp Require Import base gmap strings list.

Local Open Scope string_scope.
Local Open Scope N_scope.

(** ** JavaScript string predicates used by the worker *)

Module JsString.

(** [s.startsWith(p)] *)
Definition startsWith (s p : string) : bool := String.prefix p s.

(** [s.includes(sub)]: [sub] occurs in [s] at some offset. *)
Fixpoint includes (s sub : string) : bool :=
  match s with
  | EmptyString => startsWith s sub
  | String _ rest => startsWith s sub || includes rest sub
  end.

(** [s.endsWith(suf)]: [s] is [suf], or its tail ends with [suf]. *)
Fixpoint endsWith (s suf : string) : bool :=
  match s with
  | EmptyString => String.eqb s suf
  | String _ rest => String.eqb s suf || endsWith rest suf
  end.

End JsString.

(** ** The platform: responses, network, cache storage, promises *)

Module Platform.

(** A [Response]: the status line and the body. *)
Record Response := mkResponse { status : Z; body : string }.

(** [response.ok]: a status in the range 200-299. *)
Definition ok (r : Response) : bool :=
  ((200 <=? status r) && (status r <=? 299))%Z.

(** A response [cache.put] takes: any but a partial one (status 206). *)
Definition accepted (r : Response) : bool := negb (status r =? 206)%Z.

(** A response [cache.addAll] takes: one with an ok status that is not
    partial. *)
Definition addable (r : Response) : bool := ok r && accepted r.

(** What a rejected promise carries. *)
Definition Error := string.

Inductive Settled :=
| Resolves (r : Response)
| Rejects (e : Error).

(** The rejection of [cache.put] given a partial response. *)
Definition PARTIAL_RESPONSE : Error :=
  "TypeError: Partial response (status code 206) is unsupported".

(** What the network does with a request for one URL: after [latency]
    milliseconds the fetch either resolves with a response (of any status)
    or rejects.  The network is fixed during one run of a listener; its
    argument is the absolute URL of the request. *)
Record Reply := mkReply { latency : N; settled : Settled }.

Definition Network := string -> Reply.

(** The fetch of [u] resolves with [r] no later than [t] ms after it was
    issued. *)
Definition resolves_within (net : Network) (u : string) (t : N)
  (r : Response) : Prop :=
  settled (net u) = Resolves r /\ latency (net u) <= t.

(** The fetch of [u] rejects, or is still pending [t] ms after it was
    issued. *)
Definition fails_within (net : Network) (u : string) (t : N) : Prop :=
  t < latency (net u) \/ exists e, settled (net u) = Rejects e.

(** The state a listener of the worker runs in.  The partitions are keyed
    by the absolute URL of the request, [fetched] lists the absolute URLs
    requested, and [resolve] is the URL parser at the worker's location:
    [resolve s] is [new Request(s).url], the absolute URL the string [s]
    names there.  Nothing the worker does changes [resolve]. *)
Record World := mkWorld {
  caches : gmap string (gmap string Response); (* CacheStorage *)
  fetched : list string;      (* network requests issued, oldest first *)
  clock : N;                  (* ms the running code has spent awaiting *)
  skipWaitingCalls : nat;     (* calls of self.skipWaiting() *)
  claimed : bool;             (* self.clients.claim() was called *)
  unhandled : list Error;     (* rejections nobody handled *)
  resolve : string -> string  (* new Request(s).url *)
}.

Definition with_caches (f : gmap string (gmap string Response) ->
                            gmap string (gmap string Response)) (w : World) :=
  mkWorld (f (caches w)) (fetched w) (clock w) (skipWaitingCalls w)
          (claimed w) (unhandled w) (resolve w).

Definition with_clock (t : N) (w : World) :=
  mkWorld (caches w) (fetched w) t (skipWaitingCalls w) (claimed w)
          (unhandled w) (resolve w).

Definition log_fetch (url : string) (w : World) :=
  mkWorld (caches w) (fetched w ++ [url]) (clock w) (skipWaitingCalls w)
          (claimed w) (unhandled w) (resolve w).

Definition log_unhandled (e : Error) (w : World) :=
  mkWorld (caches w) (fetched w) (clock w) (skipWaitingCalls w) (claimed w)
          (unhandled w ++ [e]) (resolve w).

(** How a promise settles. *)
Inductive Completion (A : Type) :=
| Fulfilled (a : A)
| Rejected (e : Error).
Arguments Fulfilled {A} a.
Arguments Rejected {A} e.

(** The body of an [async] function, run to its end.  The world it
    returns is the world once everything the body has started has settled:
    the writes of a background task are part of it.  What the caller waited
    for is kept apart by [clock], which only an awaited promise advances;
    every read of the worker precedes, in program order, the tasks it leaves
    running, so no result depends on when a background write lands. *)
Definition Task (A : Type) := World -> Completion A * World.

Definition ret {A} (a : A) : Task A := fun w => (Fulfilled a, w).

Definition throw {A} (e : Error) : Task A := fun w => (Rejected e, w).

(** [await m; k]: a rejection of [m] skips [k]. *)
Definition bind {A B} (m : Task A) (k : A -> Task B) : Task B :=
  fun w =>
    match m w with
    | (Fulfilled a, w') => k a w'
    | (Rejected e, w') => (Rejected e, w')
    end.

Notation "'let*' x ':=' m 'in' k" := (bind m (fun x => k))
  (at level 10, x pattern, m at level 100, k at level 200).

(** A result nobody looks at. *)
Definition void {A} (m : Task A) : Task unit := let* _ := m in ret tt.

(** [try { m } catch (e) { h e }] and [m.catch(h)]. *)
Definition catch {A} (m : Task A) (h : Error -> Task A) : Task A :=
  fun w =>
    match m w with
    | (Fulfilled a, w') => (Fulfilled a, w')
    | (Rejected e, w') => h e w'
    end.

(** A promise that has been started: when it settles and how.  The
    effects of the task behind it are already part of the world. *)
Record Promise (A : Type) := mkPromise {
  settles_at : N;
  completion : Completion A
}.
Arguments mkPromise {A} _ _.
Arguments settles_at {A} _.
Arguments completion {A} _.

(** Calling an async function without awaiting it: the task runs, the
    caller's clock does not advance. *)
Definition start {A} (m : Task A) : Task (Promise A) :=
  fun w =>
    let '(c, w') := m w in
    (Fulfilled (mkPromise (clock w') c), with_clock (clock w) w').

(** [await p]: the caller waits until [p] has settled. *)
Definition await {A} (p : Promise A) : Task A :=
  fun w => (completion p, with_clock (N.max (clock w) (settles_at p)) w).

(** A call whose promise is dropped: a rejection is then unhandled. *)
Definition detach {A} (m : Task A) : Task unit :=
  fun w =>
    let '(c, w') := m w in
    let w'' := with_clock (clock w) w' in
    match c with
    | Fulfilled _ => (Fulfilled tt, w'')
    | Rejected e => (Fulfilled tt, log_unhandled e w'')
    end.

(** [xs.map(f)] where [f] returns a promise. *)
Fixpoint mapM {A B} (f : A -> Task B) (xs : list A) : Task (list B) :=
  match xs with
  | [] => ret []
  | x :: rest =>
      let* y := f x in
      let* ys := mapM f rest in
      ret (y :: ys)
  end.

(** The rejection that settles first; the earlier element wins a tie. *)
Fixpoint first_rejection {A} (ps : list (Promise A)) : option (N * Error) :=
  match ps with
  | [] => None
  | p :: rest =>
      match completion p, first_rejection rest with
      | Rejected e, Some (t', e') =>
          if t' <? settles_at p then Some (t', e') else Some (settles_at p, e)
      | Rejected e, None => Some (settles_at p, e)
      | Fulfilled _, later => later
      end
  end.

Fixpoint fulfilled_values {A} (ps : list (Promise A)) : list A :=
  match ps with
  | [] => []
  | p :: rest =>
      match completion p with
      | Fulfilled a => a :: fulfilled_values rest
      | Rejected _ => fulfilled_values rest
      end
  end.

Definition last_settled {A} (ps : list (Promise A)) : N :=
  fold_right (fun p t => N.max (settles_at p) t) 0 ps.

(** [Promise.all(ps)]: rejects as soon as one element rejects, otherwise
    fulfils once every element has. *)
Definition Promise_all {A} (ps : list (Promise A)) : Task (list A) :=
  fun w =>
    match first_rejection ps with
    | Some (t, e) => (Rejected e, with_clock (N.max (clock w) t) w)
    | None =>
        (Fulfilled (fulfilled_values ps),
         with_clock (N.max (clock w) (last_settled ps)) w)
    end.

(** [Promise.race([a, b])] of two started promises: the one that settles
    first; the first element wins a tie. *)
Definition Promise_race {A} (a b : Promise A) : Task A :=
  if settles_at b <? settles_at a then await b else await a.

(** The delay [setTimeout] waits for when it is given [ms]: the argument
    is converted to a signed 32-bit integer, and a negative delay counts as
    zero. *)
Definition timer_delay (ms : N) : N :=
  let wrapped := ms mod 4294967296 in
  if wrapped <? 2147483648 then wrapped else 0.

Section Net.
Variable net : Network.

(** [new Request(s).url] for a URL string [s]. *)
Definition Request_url (s : string) : Task string :=
  fun w => (Fulfilled (resolve w s), w).

(** [fetch(request)], for the request with the absolute URL [url]. *)
Definition fetch (url : string) : Task Response :=
  fun w =>
    let w' := with_clock (clock w + latency (net url)) (log_fetch url w) in
    match settled (net url) with
    | Resolves r => (Fulfilled r, w')
    | Rejects e => (Rejected e, w')
    end.

(** [fetch(s)] for a URL string: the fetch of [new Request(s)]. *)
Definition fetch_string (s : string) : Task Response :=
  let* url := Request_url s in
  fetch url.

(** [new Promise((_, reject) => setTimeout(() => reject(new Error(msg)), ms))] *)
Definition reject_after {A} (ms : N) (msg : Error) : Task A :=
  fun w => (Rejected msg, with_clock (clock w + timer_delay ms) w).

(** [caches.open(name)]: creates the partition when it is missing; the
    cache object it resolves to is identified by the name. *)
Definition ensure (name : string) (c : gmap string (gmap string Response))
  : gmap string (gmap string Response) :=
  match c !! name with
  | Some _ => c
  | None => <[name := ∅]> c
  end.

Definition caches_open (name : string) : Task string :=
  fun w => (Fulfilled name, with_caches (ensure name) w).

(** The entry of partition [cache] for the absolute URL [key], if both
    exist. *)
Definition entry (c : gmap string (gmap string Response))
  (cache key : string) : option Response :=
  c !! cache ≫= (.!! key).

Definition stored (w : World) (cache key : string) : option Response :=
  entry (caches w) cache key.

(** [cache.match(request)], for the request with the absolute URL [key]. *)
Definition cache_match (cache key : string) : Task (option Response) :=
  fun w => (Fulfilled (stored w cache key), w).

(** [cache.put(request, response)], for the request with the absolute URL
    [key]: a partial response is refused and nothing is written; any other
    response is one write of one key.  A cache object whose partition was
    deleted is no longer reachable. *)
Definition cache_put (cache key : string) (r : Response) : Task unit :=
  fun w =>
    if accepted r
    then (Fulfilled tt, with_caches (alter (insert key r) cache) w)
    else (Rejected PARTIAL_RESPONSE, w).

(** [cache.put(s, response)] for a URL string: the key is the URL of
    [new Request(s)]. *)
Definition cache_put_string (cache s : string) (r : Response) : Task unit :=
  let* key := Request_url s in
  cache_put cache key r.

(** [caches.keys()] *)
Definition caches_keys : Task (list string) :=
  fun w => (Fulfilled (elements (dom (caches w))), w).

(** [caches.delete(name)] *)
Definition caches_delete (name : string) : Task bool :=
  fun w =>
    (Fulfilled (bool_decide (is_Some (caches w !! name))),
     with_caches (delete name) w).

(** [cache.addAll(urls)]: every URL string is fetched; unless every
    fetch resolves with an ok status other than 206 the call rejects and
    writes nothing. *)
Definition fetch_ok (s : string) : Task Response :=
  let* r := fetch_string s in
  if addable r then ret r else throw "TypeError: bad response status".

Fixpoint put_each (cache : string) (entries : list (string * Response))
  : Task unit :=
  match entries with
  | [] => ret tt
  | (s, r) :: rest =>
      let* _ := cache_put_string cache s r in
      put_each cache rest
  end.

Definition cache_addAll (cache : string) (urls : list string) : Task unit :=
  let* ps := mapM (fun url => start (fetch_ok url)) urls in
  let* rs := Promise_all ps in
  put_each cache (combine urls rs).

(** [self.skipWaiting()] *)
Definition skipWaiting : Task unit :=
  fun w =>
    (Fulfilled tt,
     mkWorld (caches w) (fetched w) (clock w) (S (skipWaitingCalls w))
             (claimed w) (unhandled w) (resolve w)).

(** [self.clients.claim()] *)
Definition clients_claim : Task unit :=
  fun w =>
    (Fulfilled tt,
     mkWorld (caches w) (fetched w) (clock w) (skipWaitingCalls w) true
             (unhandled w) (resolve w)).

End Net.

End Platform.

(** ** The service worker *)

Module ServiceWorker.
Import JsString Platform.

Notation "'let*' x ':=' m 'in' k" := (bind m (fun x => k))
  (at level 10, x pattern, m at level 100, k at level 200).

Definition CACHE_VERSION : string := "v1.2024".
Definition STATIC_CACHE : string := "static-" ++ CACHE_VERSION.
Definition DYNAMIC_CACHE : string := "dynamic-" ++ CACHE_VERSION.
Definition CRITICAL_CACHE : string := "critical-" ++ CACHE_VERSION.

(** [CACHE_STRATEGIES.critical] *)
Definition CACHE_STRATEGIES_critical : list string :=
  [ "/";
    "/index.html";
    "/home/index.html";
    "/about/index.html";
    "/assessment/index.html";
    "/strategic-assessment-new/index.html";
    "/capabilities/index.html";
    "/analytics-dashboard/index.html" ].

(** [CACHE_STRATEGIES.static] and [CACHE_STRATEGIES.external]: declared by
    the worker, read by none of its functions. *)
Definition CACHE_STRATEGIES_static : list string :=
  [ "/about/neural-sales-system.html" ].

Definition CACHE_STRATEGIES_external : list string :=
  [ "https://fonts.googleapis.com";
    "https://fonts.gstatic.com";
    "https://cdnjs.cloudflare.com" ].

Definition PRECACHE_URLS : list string :=
  CACHE_STRATEGIES_critical ++ [ "/image/Logo oficial.png" ].

Definition NETWORK_TIMEOUT : N := 3000.

(** The default of [fetchWithTimeout]'s second parameter. *)
Definition DEFAULT_TIMEOUT : N := 5000.

(** A request as the worker reads it: [request.method], [request.url]
    (always an absolute URL), [request.destination] and the parts of
    [new URL(request.url)]. *)
Record Request := mkRequest {
  method : string;
  url : string;
  protocol : string;
  hostname : string;
  pathname : string;
  destination : string
}.

(** The value a strategy hands to [respondWith]: a response, or
    [undefined] ([None]). *)
Definition respond (m : Task Response) : Task (option Response) :=
  let* r := m in ret (Some r).

(** [event.data] of a message: the three commands with the payload each
    one reads, and any other message.  The [url] of [CACHE_PAGE] and the
    elements of [routes] are what [fetch] makes of them, URL strings; a
    [PREFETCH_ROUTES] message whose [routes] is missing, or is a value
    without a [map] method, is [PREFETCH_ROUTES_no_array]; a message with
    another type, or with none, is [OtherType]. *)
Inductive Message :=
| SKIP_WAITING
| CACHE_PAGE (u : string)
| PREFETCH_ROUTES (routes : list string)
| PREFETCH_ROUTES_no_array
| OtherType (type : string).

Inductive ResourceClass := Critical | StaticAsset | External | Dynamic.

Definition ResourceClass_eq_dec (a b : ResourceClass) : {a = b} + {a <> b}.
Proof. decide equality. Defined.

Section Worker.
Variable net : Network.
(** [location.hostname] of the worker. *)
Variable location_hostname : string.

Definition fetchWithTimeout (request : Request) (timeout : N)
  : Task Response :=
  let* network := start (fetch net (url request)) in
  let* timer := start (reject_after timeout "Network timeout") in
  Promise_race network timer.

Definition updateCacheInBackground (request : Request) (cache : string)
  : Task unit :=
  detach
    (catch
       (let* response := fetch net (url request) in
        if (status response =? 200)%Z
        then detach (cache_put cache (url request) response)
        else ret tt)
       (fun _ => ret tt)).

Definition cacheFirstStrategy (request : Request) (cacheName : string)
  : Task Response :=
  catch
    (let* cache := caches_open cacheName in
     let* cachedResponse := cache_match cache (url request) in
     match cachedResponse with
     | Some cached =>
         let* _ := updateCacheInBackground request cache in
         ret cached
     | None =>
         let* networkResponse := fetchWithTimeout request DEFAULT_TIMEOUT in
         let* _ := detach (cache_put cache (url request) networkResponse) in
         ret networkResponse
     end)
    (fun _ => ret (mkResponse 503 "Offline")).

Definition staleWhileRevalidateStrategy (request : Request)
  (cacheName : string) : Task (option Response) :=
  let* cache := caches_open cacheName in
  let* cachedResponse := cache_match cache (url request) in
  let* networkResponsePromise :=
    start
      (catch
         (let* response := fetchWithTimeout request DEFAULT_TIMEOUT in
          let* _ := detach (cache_put cache (url request) response) in
          ret (Some response))
         (fun _ => ret cachedResponse)) in
  match cachedResponse with
  | Some cached => ret (Some cached)
  | None => await networkResponsePromise
  end.

Definition networkFirstStrategy (request : Request) (cacheName : string)
  : Task Response :=
  catch
    (let* networkResponse := fetchWithTimeout request NETWORK_TIMEOUT in
     let* _ :=
       if (status networkResponse =? 200)%Z
       then
         let* cache := caches_open cacheName in
         detach (cache_put cache (url request) networkResponse)
       else ret tt in
     ret networkResponse)
    (fun error =>
       let* cache := caches_open cacheName in
       let* cachedResponse := cache_match cache (url request) in
       match cachedResponse with
       | Some cached => ret cached
       | None => throw error
       end).

Definition handleRequest (request : Request) : Task (option Response) :=
  if existsb
       (fun path =>
          String.eqb (pathname request) path
          || endsWith (pathname request) path)
       CACHE_STRATEGIES_critical
  then respond (cacheFirstStrategy request CRITICAL_CACHE)
  else if String.eqb (destination request) "style"
          || String.eqb (destination request) "script"
          || String.eqb (destination request) "image"
  then staleWhileRevalidateStrategy request STATIC_CACHE
  else if negb (includes (hostname request) location_hostname)
  then respond (networkFirstStrategy request DYNAMIC_CACHE)
  else respond (networkFirstStrategy request DYNAMIC_CACHE).

(** The four classes of the specification and the condition of each,
    as [handleRequest] tests them. *)
Definition is_critical_path (request : Request) : bool :=
  existsb
    (fun path =>
       String.eqb (pathname request) path
       || endsWith (pathname request) path)
    CACHE_STRATEGIES_critical.

Definition is_static_destination (request : Request) : bool :=
  String.eqb (destination request) "style"
  || String.eqb (destination request) "script"
  || String.eqb (destination request) "image".

Definition is_external (request : Request) : bool :=
  negb (includes (hostname request) location_hostname).

(** The class of a request, in the order [handleRequest] tests. *)
Definition classify (request : Request) : ResourceClass :=
  if is_critical_path request then Critical
  else if is_static_destination request then StaticAsset
  else if is_external request then External
  else Dynamic.

(** The strategy and partition of each class. *)
Definition dispatch (c : ResourceClass) (request : Request)
  : Task (option Response) :=
  match c with
  | Critical => respond (cacheFirstStrategy request CRITICAL_CACHE)
  | StaticAsset => staleWhileRevalidateStrategy request STATIC_CACHE
  | External => respond (networkFirstStrategy request DYNAMIC_CACHE)
  | Dynamic => respond (networkFirstStrategy request DYNAMIC_CACHE)
  end.

(** The rule of the specification with the order of evaluation left
    open: the conditions are tried in the order of [order], the first
    that holds gives the class, and [Dynamic] is the class when none
    holds. *)
Definition condition (c : ResourceClass) (request : Request) : bool :=
  match c with
  | Critical => is_critical_path request
  | StaticAsset => is_static_destination request
  | External => is_external request
  | Dynamic => true
  end.

Fixpoint classify_by (order : list ResourceClass) (request : Request)
  : ResourceClass :=
  match order with
  | [] => Dynamic
  | c :: rest =>
      if condition c request then c else classify_by rest request
  end.

(** The [fetch] listener: [None] when it returns without calling
    [respondWith], so that the browser handles the request itself. *)
Definition on_fetch (request : Request) : option (Task (option Response)) :=
  if negb (String.eqb (method request) "GET") then None
  else if String.eqb (protocol request) "chrome-extension:" then None
  else if includes (hostname request) "google-analytics" then None
  else Some (handleRequest request).

Definition fonts : list string :=
  [ "https://fonts.googleapis.com/css2?family=Playfair+Display:wght@400;500;600;700;800;900&display=swap";
    "https://fonts.googleapis.com/css2?family=Inter:wght@300;400;500;600;700&display=swap" ].

(** [fetch(u).then(response => cache.put(u, response)).catch(() => {})],
    the element of the three best-effort batches. *)
Definition fetch_into (cache u : string) : Task unit :=
  catch
    (let* response := fetch_string net u in cache_put_string cache u response)
    (fun _ => ret tt).

Definition preloadCriticalResources : Task (list unit) :=
  let* cache := caches_open STATIC_CACHE in
  let* ps := mapM (fun u => start (fetch_into cache u)) fonts in
  Promise_all ps.

Definition criticalPages : list string :=
  [ "/about/index.html"; "/assessment/index.html" ].

Definition warmupCache : Task (list unit) :=
  let* cache := caches_open CRITICAL_CACHE in
  let* ps := mapM (fun u => start (fetch_into cache u)) criticalPages in
  Promise_all ps.

Definition cachePage (u : string) : Task unit :=
  let* cache := caches_open DYNAMIC_CACHE in
  catch
    (let* response := fetch_string net u in
     cache_put_string cache u response)
    (fun _ => ret tt).

Definition prefetchRoutes (routes : list string) : Task (list unit) :=
  let* cache := caches_open CRITICAL_CACHE in
  let* ps := mapM (fun route => start (fetch_into cache route)) routes in
  Promise_all ps.

(** [prefetchRoutes] given a value without a [map] method: the partition
    is opened, then [routes.map] throws. *)
Definition prefetchRoutes_no_array : Task (list unit) :=
  let* cache := caches_open CRITICAL_CACHE in
  throw "TypeError: routes.map is not a function".

(** The promise the [install] listener hands to [event.waitUntil]. *)
Definition on_install : Task unit :=
  let* precache :=
    start (let* cache := caches_open CRITICAL_CACHE in
           cache_addAll net cache PRECACHE_URLS) in
  let* preload := start (void preloadCriticalResources) in
  let* skip := start skipWaiting in
  void (Promise_all [precache; preload; skip]).

(** The promise the [activate] listener hands to [event.waitUntil]. *)
Definition on_activate : Task unit :=
  let* cleanup :=
    start (void
      (let* cacheNames := caches_keys in
       let* ps :=
         mapM (fun cacheName => start (caches_delete cacheName))
           (List.filter
              (fun cacheName => negb (includes cacheName CACHE_VERSION))
              cacheNames) in
       Promise_all ps)) in
  let* claim := start clients_claim in
  let* warmup := start (void warmupCache) in
  void (Promise_all [cleanup; claim; warmup]).

(** The [message] listener; the calls it makes are not awaited. *)
Definition on_message (data : Message) : Task unit :=
  match data with
  | SKIP_WAITING => detach skipWaiting
  | CACHE_PAGE u => detach (cachePage u)
  | PREFETCH_ROUTES routes => detach (prefetchRoutes routes)
  | PREFETCH_ROUTES_no_array => detach prefetchRoutes_no_array
  | OtherType _ => ret tt
  end.

End Worker.

End ServiceWorker.

(** ** The client controller: prefetch hints *)

Module Optimizer.

(** A [<link>] element appended to [document.head]. *)
Record Link := mkLink { rel : string; href : string }.

(** The part of the controller and of the page the prefetch code touches:
    [this.resourceHints] and the links appended to [document.head],
    oldest first. *)
Record Page := mkPage {
  resourceHints : gset string;
  head : list Link
}.

Section Controller.
(** [new URL(href, window.location.origin).origin], [None] when the
    constructor throws. *)
Variable origin_of : string -> option string.
(** [window.location.origin] *)
Variable location_origin : string.

Definition isInternalLink (h : string) : bool :=
  match origin_of h with
  | Some o => String.eqb o location_origin
  | None => false
  end.

Definition prefetchResource (h : string) (p : Page) : Page :=
  if negb (bool_decide (h ∈ resourceHints p)) && isInternalLink h
  then mkPage ({[h]} ∪ resourceHints p) (head p ++ [mkLink "prefetch" h])
  else p.

(** What fires one of the three triggers set up by
    [setupIntelligentPrefetching]: the pointer is over a link, a
    navigation container enters the viewport with these links, a scroll
    sample finds these links in view. *)
Inductive Trigger :=
| Mouseover (h : string)
| Intersecting (links : list string)
| Scroll (visible : list string).

(** The [mouseover] listener, once [event.target.closest('a')] is a link
    with this [href]. *)
Definition on_mouseover (h : string) (p : Page) : Page :=
  if isInternalLink h then prefetchResource h p else p.

(** [links.forEach(link => this.prefetchResource(link.href))] *)
Definition prefetchEach (links : list string) (p : Page) : Page :=
  fold_left (fun q h => prefetchResource h q) links p.

(** [prefetchVisibleLinks], given the links the scroll sample finds within
    200 px of the viewport. *)
Definition prefetchVisibleLinks (visible : list string) (p : Page) : Page :=
  prefetchEach visible p.

Definition fire (t : Trigger) (p : Page) : Page :=
  match t with
  | Mouseover h => on_mouseover h p
  | Intersecting links => prefetchEach links p
  | Scroll visible => prefetchVisibleLinks visible p
  end.

Definition run (ts : list Trigger) (p : Page) : Page :=
  fold_left (fun q t => fire t q) ts p.

(** The prefetch hints for [h] among the links of the head. *)
Definition hints_for (h : string) (links : list Link) : nat :=
  List.length
    (List.filter
       (fun l => String.eqb (rel l) "prefetch" && String.eqb (href l) h)
       links).

(** [q] comes after [p] within the allowance of [h]: no hint for [h]
    is lost, at most the one hint still allowed to [h] (none once [h]
    is in [resourceHints]) is added, and none when [h] is not an
    internal link. *)
Definition follows (h : string) (p q : Page) : Prop :=
  (hints_for h (head p) <= hints_for h (head q))%nat
  /\ (hints_for h (head q)
      + (if bool_decide (h ∈ resourceHints q) then 0 else 1)
      <= hints_for h (head p)
         + (if bool_decide (h ∈ resourceHints p) then 0 else 1))%nat
  /\ (isInternalLink h = false ->
      hints_for h (head q) = hints_for h (head p)).

End Controller.

(** A page with nothing requested and an empty head. *)
Definition blank : Page := mkPage ∅ [].

(** A URL parser for a page served from [https://example.com], on the
    hrefs of the examples: a URL of that origin and a relative reference
    have the origin of the page, any other absolute or scheme-relative URL
    has another one. *)
Definition example_origin (h : string) : option string :=
  if String.eqb h "https://example.com"
     || String.prefix "https://example.com/" h
  then Some "https://example.com"
  else if String.prefix "https://" h || String.prefix "http://" h
          || String.prefix "//" h
  then Some "https://elsewhere.net"
  else Some "https://example.com".

End Optimizer.


(** ** What the batches of the worker leave behind

    Closed forms of the effect of the batch operations on cache storage,
    used to state what the listeners do. *)

Module Effects.
Import JsString Platform ServiceWorker.

(** What a fetch of the absolute URL [u] followed by a [cache.put] of
    its response stores: the response, when the fetch resolves and the
    cache takes it. *)
Definition arriving (net : Network) (u : string) : option Response :=
  match settled (net u) with
  | Resolves r => if accepted r then Some r else None
  | Rejects _ => None
  end.

(** The fetch of the absolute URL [u] fails, or resolves with a response
    the cache refuses. *)
Definition fails_or_refused (net : Network) (u : string) : Prop :=
  (exists e, settled (net u) = Rejects e)
  \/ (exists r, settled (net u) = Resolves r /\ status r = 206%Z).

(** The writes of a best-effort batch over the absolute URLs [urls] into
    partition [cache]: one for each URL whose fetch resolves with a response
    the cache takes.  They are taken in the order of the list; two writes
    of one key carry the same response, the network being a function of
    the URL, so the order of arrival gives the same partition. *)
Definition written (net : Network) (cache : string) (urls : list string)
  (c : gmap string (gmap string Response))
  : gmap string (gmap string Response) :=
  fold_left
    (fun acc u =>
       match arriving net u with
       | Some r => alter (insert u r) cache acc
       | None => acc
       end)
    urls c.

(** The fetch of the absolute URL [u] resolves with a response [addAll]
    takes. *)
Definition resolves_ok (net : Network) (u : string) : bool :=
  match settled (net u) with
  | Resolves r => addable r
  | Rejects _ => false
  end.

(** How the fetch of [u] made by [addAll] settles. *)
Definition checked (net : Network) (u : string) : Completion Response :=
  match settled (net u) with
  | Resolves r =>
      if addable r then Fulfilled r
      else Rejected "TypeError: bad response status"
  | Rejects e => Rejected e
  end.

(** The world after a [cache.put] of [r] under [key] whose promise is
    dropped: the write, or the refusal as an unhandled rejection. *)
Definition put_dropped (cache key : string) (r : Response) (w : World)
  : World :=
  if accepted r
  then with_caches (alter (insert key r) cache) w
  else log_unhandled PARTIAL_RESPONSE w.

(** The longest latency among [urls]. *)
Definition slowest (net : Network) (urls : list string) : N :=
  fold_right (fun u t => N.max (latency (net u)) t) 0 urls.

(** A partition name carries the current version tag. *)
Definition tagged (name : string) : bool := includes name CACHE_VERSION.

(** Cache storage after the deletions of the [activate] listener. *)
Definition pruned (c : gmap string (gmap string Response))
  : gmap string (gmap string Response) :=
  fold_left (fun acc name => delete name acc)
    (List.filter (fun name => negb (tagged name)) (elements (dom c))) c.

End Effects.

(** ** Concrete worlds, networks and requests *)

Module Examples.
Import Platform ServiceWorker.

(** [encodeURI] on the strings of the examples: a space is escaped. *)
Fixpoint escaped (s : string) : string :=
  match s with
  | EmptyString => EmptyString
  | String c rest =>
      if String.eqb (String c EmptyString) " " then "%20" ++ escaped rest
      else String c (escaped rest)
  end.

(** The URL parser of a worker served from [https://example.com/sw.js],
    on the strings of the examples: an absolute URL names itself, a
    scheme-relative one takes the scheme of the worker, a path its origin,
    and any other reference is relative to the root. *)
Definition at_example (s : string) : string :=
  if String.prefix "https://" s || String.prefix "http://" s then escaped s
  else if String.prefix "//" s then "https:" ++ escaped s
  else if String.prefix "/" s then "https://example.com" ++ escaped s
  else "https://example.com/" ++ escaped s.

(** A browser that has never run the worker. *)
Definition fresh : World := mkWorld ∅ [] 0 0%nat false [] at_example.

Definition page : Response := mkResponse 200 "<html>".
Definition older : Response := mkResponse 200 "<html old>".
Definition not_found : Response := mkResponse 404 "Not Found".
Definition partial_content : Response := mkResponse 206 "<ht".

(** Every fetch resolves with [page] after 40 ms. *)
Definition online : Network := fun _ => mkReply 40 (Resolves page).

(** Every fetch rejects. *)
Definition offline : Network :=
  fun _ => mkReply 10 (Rejects "TypeError: Failed to fetch").

(** Every fetch resolves with a 404 page. *)
Definition missing : Network := fun _ => mkReply 40 (Resolves not_found).

(** Every fetch resolves with a partial response. *)
Definition serving_partial : Network :=
  fun _ => mkReply 40 (Resolves partial_content).

(** The fetch of [bad] rejects, every other fetch resolves with [page]. *)
Definition flaky (bad : string) : Network :=
  fun u =>
    if String.eqb u bad
    then mkReply 10 (Rejects "TypeError: Failed to fetch")
    else mkReply 40 (Resolves page).

(** A GET request for [path] on [host]. *)
Definition request_of (host path dest : string) : Request :=
  mkRequest "GET" ("https://" ++ host ++ path) "https:" host path dest.

(** A world whose partition [cache] holds [r] for [key]. *)
Definition holding (cache key : string) (r : Response) : World :=
  mkWorld {[ cache := {[ key := r ]} ]} [] 0 0%nat false [] at_example.

End Examples.

(** ** Invariants of cache storage *)

Module Invariant.
Import Platform ServiceWorker Effects.

(** Every partition of [c] carries the tag of the current version. *)
Definition all_tagged (c : gmap string (gmap string Response)) : Prop :=
  forall name, is_Some (c !! name) -> tagged name = true.

(** [c'] differs from [c] at most in the entry of [u]: every other entry is
    as it was, and no entry and no partition is lost. *)
Definition touches_only (u : string)
  (c c' : gmap string (gmap string Response)) : Prop :=
  (forall cache key, key <> u -> entry c' cache key = entry c cache key)
  /\ (forall cache key, is_Some (entry c cache key) ->
        is_Some (entry c' cache key))
  /\ (forall name, is_Some (c !! name) -> is_Some (c' !! name)).

(** What one call of a strategy on [u] over partition [name] may do to
    cache storage: nothing, open the partition, write the entry of [u]
    with a response the cache takes. *)
Inductive strategy_step (u name : string)
  (c : gmap string (gmap string Response))
  : gmap string (gmap string Response) -> Prop :=
| step_none : strategy_step u name c c
| step_open : strategy_step u name c (ensure name c)
| step_write (r : Response) :
    accepted r = true ->
    strategy_step u name c (alter (insert u r) name (ensure name c)).

(** The whole effect of one call of a strategy: one request for [u] is
    issued, nothing is left unhandled but the refusal of a partial
    response the network gave, and nothing but cache storage changes
    besides. *)
Definition strategy_effect (net : Network) (u name : string) (w w' : World)
  : Prop :=
  fetched w' = (fetched w ++ [u])%list
  /\ (unhandled w' = unhandled w
      \/ (unhandled w' = (unhandled w ++ [PARTIAL_RESPONSE])%list
          /\ exists r, settled (net u) = Resolves r /\ status r = 206%Z))
  /\ skipWaitingCalls w' = skipWaitingCalls w
  /\ claimed w' = claimed w
  /\ resolve w' = resolve w
  /\ strategy_step u name (caches w) (caches w').

End Invariant.

(** ** Invariant of the prefetch hints *)

Module PrefetchInvariant.
Import Optimizer.

Section Appends.
Variable origin_of : string -> option string.
Variable location_origin : string.

(** [q] is [p] with prefetch hints appended: the head grows at its end by
    links that are prefetch hints for internal links not requested in [p],
    no two for the same URL, and the requested set grows by exactly their
    URLs. *)
Definition appends (p q : Page) : Prop :=
  exists added,
    head q = (head p ++ added)%list
    /\ resourceHints q = list_to_set (map href added) ∪ resourceHints p
    /\ NoDup (map href added)
    /\ Forall
         (fun l =>
            rel l = "prefetch"
            /\ isInternalLink origin_of location_origin (href l) = true
            /\ href l ∉ resourceHints p)
         added.

End Appends.

End PrefetchInvariant.

(** ** The client controller: resource hints of the bootstrap *)

Module Bootstrap.
Import Optimizer.

(** An element of the [hints] array of [setupResourceHints]: [rel], [href]
    and, when the literal has them, [crossorigin] and [as], in that order
    of keys. *)
Record Hint := mkHint {
  hint_rel : string;
  hint_href : string;
  hint_crossorigin : option bool;
  hint_as : option string
}.

(** The attributes of an element, in the order they were set. *)
Definition Element := list (string * string).

(** [String(b)] *)
Definition string_of_bool (b : bool) : string :=
  if b then "true" else "false".

(** The [Object.keys(hint).forEach] loop on a new [link]: [crossorigin]
    becomes the empty attribute when its value is truthy, every other key
    is set to its value. *)
Definition link_for (h : Hint) : Element :=
  ([("rel", hint_rel h); ("href", hint_href h)]
   ++ match hint_crossorigin h with
      | Some true => [("crossorigin", "")]
      | Some false => [("crossorigin", string_of_bool false)]
      | None => []
      end
   ++ match hint_as h with
      | Some a => [("as", a)]
      | None => []
      end)%list.

(** [this.resourceHints] and the children appended to [document.head]. *)
Record Document := mkDocument {
  hintsSeen : gset string;
  appended : list Element
}.

(** The body of [hints.forEach]. *)
Definition addHint (h : Hint) (d : Document) : Document :=
  if bool_decide (hint_href h ∈ hintsSeen d) then d
  else mkDocument ({[hint_href h]} ∪ hintsSeen d)
                  (appended d ++ [link_for h]).

Definition addHints (hs : list Hint) (d : Document) : Document :=
  fold_left (fun acc h => addHint h acc) hs d.

Definition hints : list Hint :=
  [ mkHint "preconnect" "https://fonts.googleapis.com" (Some true) None;
    mkHint "preconnect" "https://fonts.gstatic.com" (Some true) None;
    mkHint "dns-prefetch" "//cdnjs.cloudflare.com" None None;
    mkHint "prefetch" "/about/index.html" None None;
    mkHint "prefetch" "/assessment/index.html" None None;
    mkHint "preload" "/image/Logo oficial.png" None (Some "image") ].

Definition setupResourceHints (d : Document) : Document := addHints hints d.

(** [element.getAttribute(name)] *)
Fixpoint getAttribute (name : string) (e : Element) : option string :=
  match e with
  | [] => None
  | (k, v) :: rest => if String.eqb k name then Some v else getAttribute name rest
  end.

(** The elements of [es] whose [href] attribute is [u]. *)
Definition with_href (u : string) (es : list Element) : list Element :=
  List.filter
    (fun e => bool_decide (getAttribute "href" e = Some u)) es.

(** The page the prefetch code sees after the bootstrap: the same set of
    requested hints, and the appended links by their [rel] and [href]. *)
Definition page_of (d : Document) : Page :=
  mkPage (hintsSeen d)
    (map (fun e =>
            mkLink (default "" (getAttribute "rel" e))
                   (default "" (getAttribute "href" e)))
         (appended d)).

End Bootstrap.

(** ** The client controller: [throttle] and [debounce]

    A call is the time at which the returned function is called, in
    milliseconds, and the arguments it is called with.  A timer set at time
    [t] with the delay [ms] is due at [t + timer_delay ms]; it has not run
    before a call made earlier than that.  From then on it runs when the
    event loop gets to it: whether it has run before a call made when it is
    due or later is not fixed by the times (within the turn of the event
    loop that set it, it has not), so each call says whether the timers due
    by then have run. *)

Module Timers.
Import Platform.

Section Timers.
Context {A : Type}.

Record Call := mkCall {
  time : N;              (* when the returned function is called *)
  timers_first : bool;   (* the timers due by [time] have run before it *)
  args : A
}.

(** The timer due at [due] has run when the call [c] is made. *)
Definition has_run (due : N) (c : Call) : bool :=
  (due <=? time c) && timers_first c.

(** The state of the function [throttle(func, limit)] returns: the
    variable [inThrottle], and when the pending [setTimeout] resets it. *)
Record Throttled := mkThrottled {
  inThrottle : bool;
  reset_at : option N
}.

(** [let inThrottle;] *)
Definition throttle_idle : Throttled := mkThrottled false None.

(** The state the call [c] finds: a reset that has run has cleared
    [inThrottle]. *)
Definition throttle_tick (c : Call) (s : Throttled) : Throttled :=
  match reset_at s with
  | Some due => if has_run due c then mkThrottled false None else s
  | None => s
  end.

(** One call: whether [func] runs, and the state after. *)
Definition throttle_call (limit : N) (c : Call) (s : Throttled)
  : bool * Throttled :=
  let s' := throttle_tick c s in
  if inThrottle s' then (false, s')
  else (true, mkThrottled true (Some (time c + timer_delay limit))).

(** The calls on which [func] runs. *)
Fixpoint throttle_run (limit : N) (calls : list Call) (s : Throttled)
  : list Call :=
  match calls with
  | [] => []
  | c :: rest =>
      let '(ran, s') := throttle_call limit c s in
      if ran then c :: throttle_run limit rest s'
      else throttle_run limit rest s'
  end.

(** The state of the function [debounce(func, wait)] returns: the pending
    [timeout], with the time it is due and the arguments [later] will pass
    to [func]. *)
Definition Debounced : Type := option (N * A).

(** One call: a pending timer that has run has run [func]; one that has
    not is cleared; a new one is set. *)
Definition debounce_call (wait : N) (c : Call) (s : Debounced)
  : list (N * A) * Debounced :=
  (match s with
   | Some (due, a0) => if has_run due c then [(due, a0)] else []
   | None => []
   end,
   Some (time c + timer_delay wait, args c)).

(** The runs of [func], each with the time its timer is due and its
    arguments; the timer left pending after the last call runs in the
    end. *)
Fixpoint debounce_run (wait : N) (calls : list Call) (s : Debounced)
  : list (N * A) :=
  match calls with
  | [] => match s with
          | Some (due, a0) => [(due, a0)]
          | None => []
          end
  | c :: rest =>
      let '(ran, s') := debounce_call wait c s in
      (ran ++ debounce_run wait rest s')%list
  end.

(** The run a call gives rise to when its timer is not cleared. *)
Definition delayed (wait : N) (c : Call) : N * A :=
  (time c + timer_delay wait, args c).

End Timers.

Arguments Call A : clear implicits.

End Timers.

(** ** The client controller: performance metrics

    Numbers are those of JavaScript; nothing is assumed of [+] and [-]. *)

Module Vitals.

Section Vitals.
Variable num : Type.
Variable zero : num.
Variable add sub : num -> num -> num.

(** [this.metrics] *)
Record Metrics := mkMetrics {
  fcp : num;
  lcp : num;
  fid : num;
  cls : num;
  ttfb : num
}.

(** The fields of a performance entry the observers read. *)
Record PerfEntry := mkPerfEntry {
  entry_name : string;
  startTime : num;
  processingStart : num;
  value : num;
  hadRecentInput : bool
}.

(** The metrics and the variable [clsScore] of [measureCoreWebVitals]. *)
Record Monitor := mkMonitor {
  metrics : Metrics;
  clsScore : num
}.

(** The constructor's [this.metrics] and [let clsScore = 0]. *)
Definition initial : Monitor :=
  mkMonitor (mkMetrics zero zero zero zero zero) zero.

(** A call of one of the four observers with the entries of its list. *)
Inductive Signal :=
| Paint (entries : list PerfEntry)
| LargestPaint (entries : list PerfEntry)
| FirstInput (entries : list PerfEntry)
| LayoutShift (entries : list PerfEntry).

Definition set_fcp (x : num) (m : Monitor) : Monitor :=
  mkMonitor (mkMetrics x (lcp (metrics m)) (fid (metrics m))
                       (cls (metrics m)) (ttfb (metrics m)))
            (clsScore m).

Definition set_lcp (x : num) (m : Monitor) : Monitor :=
  mkMonitor (mkMetrics (fcp (metrics m)) x (fid (metrics m))
                       (cls (metrics m)) (ttfb (metrics m)))
            (clsScore m).

Definition set_fid (x : num) (m : Monitor) : Monitor :=
  mkMonitor (mkMetrics (fcp (metrics m)) (lcp (metrics m)) x
                       (cls (metrics m)) (ttfb (metrics m)))
            (clsScore m).

Definition set_ttfb (x : num) (m : Monitor) : Monitor :=
  mkMonitor (mkMetrics (fcp (metrics m)) (lcp (metrics m)) (fid (metrics m))
                       (cls (metrics m)) x)
            (clsScore m).

(** [clsScore += entry.value; this.metrics.cls = clsScore] *)
Definition add_shift (x : num) (m : Monitor) : Monitor :=
  mkMonitor (mkMetrics (fcp (metrics m)) (lcp (metrics m)) (fid (metrics m))
                       (add (clsScore m) x) (ttfb (metrics m)))
            (add (clsScore m) x).

(** The paint observer: [entries[entries.length - 1].startTime]; with no
    entry the callback throws and nothing is assigned. *)
Definition on_paint (entries : list PerfEntry) (m : Monitor) : Monitor :=
  match last entries with
  | Some e => set_fcp (startTime e) m
  | None => m
  end.

Definition on_largest_paint (entries : list PerfEntry) (m : Monitor)
  : Monitor :=
  match last entries with
  | Some e => set_lcp (startTime e) m
  | None => m
  end.

Definition on_first_input (entries : list PerfEntry) (m : Monitor) : Monitor :=
  fold_left
    (fun acc e =>
       if String.eqb (entry_name e) "first-input"
       then set_fid (sub (processingStart e) (startTime e)) acc
       else acc)
    entries m.

Definition on_layout_shift (entries : list PerfEntry) (m : Monitor) : Monitor :=
  fold_left
    (fun acc e => if negb (hadRecentInput e) then add_shift (value e) acc else acc)
    entries m.

(** [measureCustomMetrics], given the first navigation entry if there is
    one, as its [responseStart] and [requestStart]. *)
Definition measureCustomMetrics (navTiming : option (num * num)) (m : Monitor)
  : Monitor :=
  match navTiming with
  | Some (responseStart, requestStart) =>
      set_ttfb (sub responseStart requestStart) m
  | None => m
  end.

Definition observe (s : Signal) (m : Monitor) : Monitor :=
  match s with
  | Paint entries => on_paint entries m
  | LargestPaint entries => on_largest_paint entries m
  | FirstInput entries => on_first_input entries m
  | LayoutShift entries => on_layout_shift entries m
  end.

Definition observe_all (ss : list Signal) (m : Monitor) : Monitor :=
  fold_left (fun acc s => observe s acc) ss m.

(** The test of the first-input observer on an entry. *)
Definition is_first_input (e : PerfEntry) : bool :=
  String.eqb (entry_name e) "first-input".

(** [getMetrics()] *)
Definition getMetrics (m : Monitor) : Metrics := metrics m.

(** The entries of one kind among the signals, in the order of arrival. *)
Definition paints (ss : list Signal) : list PerfEntry :=
  concat (map (fun s => match s with Paint es => es | _ => [] end) ss).

Definition largest_paints (ss : list Signal) : list PerfEntry :=
  concat (map (fun s => match s with LargestPaint es => es | _ => [] end) ss).

Definition first_inputs (ss : list Signal) : list PerfEntry :=
  concat (map (fun s => match s with FirstInput es => es | _ => [] end) ss).

Definition layout_shifts (ss : list Signal) : list PerfEntry :=
  concat (map (fun s => match s with LayoutShift es => es | _ => [] end) ss).

End Vitals.

End Vitals.

(** ** The client controller: deferred content *)

Module LazyLoad.

(** What [loadElement] reads and writes of an element: its tag, the
    attributes [data-src] and [data-lazy], [src], [innerHTML] and the class
    list. *)
Record LazyElement := mkLazyElement {
  tagName : string;
  data_src : option string;
  data_lazy : option string;
  src : option string;
  innerHTML : string;
  classList : list string
}.

(** The truth value of [element.dataset.x]: a missing attribute is
    [undefined], an empty one is the empty string. *)
Definition present (attribute : option string) : bool :=
  match attribute with
  | Some v => negb (String.eqb v "")
  | None => false
  end.

(** [classList.add(token)] *)
Definition classList_add (token : string) (classes : list string)
  : list string :=
  if existsb (String.eqb token) classes then classes
  else (classes ++ [token])%list.

(** The elements of the page by identity, and the targets the lazy
    observer of [setupLazyLoading] still observes. *)
Record LazyPage := mkLazyPage {
  elements : gmap nat LazyElement;
  observed : gset nat
}.

(** An entry handed to the observer's callback. *)
Record Intersection := mkIntersection {
  target : nat;
  isIntersecting : bool
}.

Section Markup.
(** [markup tag content]: what [innerHTML] reads after [content] was
    assigned to it on an element with this tag, the serialisation of the
    children the parser builds from [content]. *)
Variable markup : string -> string -> string.

Definition loadElement (e : LazyElement) : LazyElement :=
  let e1 :=
    if present (data_src e)
    then mkLazyElement (tagName e) None (data_lazy e) (data_src e)
                       (innerHTML e) (classList e)
    else e in
  let e2 :=
    if present (data_lazy e1)
    then mkLazyElement (tagName e1) (data_src e1) None (src e1)
                       (markup (tagName e1) (default "" (data_lazy e1)))
                       (classList e1)
    else e1 in
  mkLazyElement (tagName e2) (data_src e2) (data_lazy e2) (src e2)
                (innerHTML e2) (classList_add "loaded" (classList e2)).

(** The body of [entries.forEach] in the callback. *)
Definition on_intersection (i : Intersection) (p : LazyPage) : LazyPage :=
  if isIntersecting i
  then mkLazyPage (alter loadElement (target i) (elements p))
                  (observed p ∖ {[target i]})
  else p.

(** The callback on one list of entries, and on the lists of a session. *)
Definition lazy_callback (entries : list Intersection) (p : LazyPage)
  : LazyPage :=
  fold_left (fun acc i => on_intersection i acc) entries p.

Definition lazy_session (batches : list (list Intersection)) (p : LazyPage)
  : LazyPage :=
  fold_left (fun acc entries => lazy_callback entries acc) batches p.

End Markup.

(** The round trip of [innerHTML] on content that is already in
    serialised form. *)
Definition serialised (tag content : string) : string := content.

End LazyLoad.

(** * Properties *)

(** ** Strings *)

Section StringFacts.
Import JsString.

Lemma append_nil (q : string) : String.append EmptyString q = q.
Proof. reflexivity. Qed.

Lemma append_cons (a : Ascii.ascii) (p q : string) :
  String.append (String a p) q = String a (String.append p q).
Proof. reflexivity. Qed.

Lemma startsWith_spec (s p : string) :
  startsWith s p = true <-> exists q, s = String.append p q.
Proof.
  unfold startsWith. revert s. induction p as [|a p IH]; intros s; simpl.
  - split; [intros _; exists s; reflexivity | intros _; destruct s; reflexivity].
  - destruct s as [|b s]; simpl.
    + split; [discriminate | intros [q Hq]; discriminate].
    + destruct (Ascii.ascii_dec a b) as [->|Hab].
      * rewrite IH. split; intros [q Hq]; exists q;
          rewrite append_cons in *; congruence.
      * split; [discriminate |].
        intros [q Hq]. rewrite append_cons in Hq. congruence.
Qed.

(** [includes] holds exactly of the strings that contain [sub]. *)
Lemma includes_spec (s sub : string) :
  includes s sub = true <->
  exists p q, s = String.append p (String.append sub q).
Proof.
  induction s as [|a s IH]; cbn [includes].
  - rewrite startsWith_spec. split.
    + intros [q Hq]. exists EmptyString, q. exact Hq.
    + intros [p [q Hq]]. destruct p as [|b p].
      * eauto.
      * rewrite append_cons in Hq. discriminate.
  - rewrite orb_true_iff, startsWith_spec, IH. split.
    + intros [[q Hq] | [p [q Hq]]].
      * exists EmptyString, q. exact Hq.
      * exists (String a p), q. rewrite append_cons. congruence.
    + intros [p [q Hq]]. destruct p as [|b p].
      * left. eauto.
      * right. exists p, q. rewrite append_cons in Hq. congruence.
Qed.

(** [endsWith] holds exactly of the strings that have [suf] as a suffix. *)
Lemma endsWith_spec (s suf : string) :
  endsWith s suf = true <-> exists p, s = String.append p suf.
Proof.
  induction s as [|a s IH]; cbn [endsWith].
  - rewrite String.eqb_eq. split.
    + intros <-. exists EmptyString. reflexivity.
    + intros [p Hp]. destruct p as [|b p].
      * exact Hp.
      * rewrite append_cons in Hp. discriminate.
  - rewrite orb_true_iff, String.eqb_eq, IH. split.
    + intros [<- | [p Hp]].
      * exists EmptyString. reflexivity.
      * exists (String a p). rewrite append_cons. congruence.
    + intros [p Hp]. destruct p as [|b p].
      * left. exact Hp.
      * right. exists p. rewrite append_cons in Hp. congruence.
Qed.

End StringFacts.

(** ** Cache storage *)

Section StorageFacts.
Import Platform.
Implicit Types c : gmap string (gmap string Response).

Lemma ensure_lookup_eq c name :
  ensure name c !! name = Some (default ∅ (c !! name)).
Proof.
  unfold ensure. destruct (c !! name) as [p|] eqn:E; simpl.
  - exact E.
  - apply lookup_insert_eq.
Qed.

Lemma ensure_is_Some c name : is_Some (ensure name c !! name).
Proof. rewrite ensure_lookup_eq. eauto. Qed.

Lemma ensure_present c name : is_Some (c !! name) -> ensure name c = c.
Proof. intros [p E]. unfold ensure. rewrite E. reflexivity. Qed.

Lemma ensure_lookup_ne c name other :
  name <> other -> ensure name c !! other = c !! other.
Proof.
  intros Hne. unfold ensure. destruct (c !! name); [reflexivity |].
  apply lookup_insert_ne. exact Hne.
Qed.

(** Opening a partition shows no entry that was not there. *)
Lemma entry_ensure c name cache key :
  entry (ensure name c) cache key = entry c cache key.
Proof.
  unfold entry. destruct (decide (name = cache)) as [->|Hne].
  - rewrite ensure_lookup_eq. destruct (c !! cache) as [p|]; simpl.
    + reflexivity.
    + apply lookup_empty.
  - rewrite ensure_lookup_ne by exact Hne. reflexivity.
Qed.

Lemma entry_present c cache key r :
  entry c cache key = Some r -> is_Some (c !! cache).
Proof.
  unfold entry. destruct (c !! cache); [eauto | discriminate].
Qed.

(** A write is read back. *)
Lemma entry_put_eq c cache key r :
  is_Some (c !! cache) ->
  entry (alter (insert key r) cache c) cache key = Some r.
Proof.
  intros [p E]. unfold entry. rewrite lookup_alter_eq, E. simpl.
  apply lookup_insert_eq.
Qed.

(** A write leaves every other entry as it was. *)
Lemma entry_put_ne c cache key r cache' key' :
  cache <> cache' \/ key <> key' ->
  entry (alter (insert key r) cache c) cache' key' = entry c cache' key'.
Proof.
  intros Hne. unfold entry. destruct (decide (cache = cache')) as [->|Hc].
  - destruct Hne as [Hne|Hne]; [congruence|].
    rewrite lookup_alter_eq. destruct (c !! cache'); simpl; [|reflexivity].
    apply lookup_insert_ne. exact Hne.
  - rewrite lookup_alter_ne by exact Hc. reflexivity.
Qed.

(** A write through a cache object whose partition is gone is lost. *)
Lemma put_unreachable c cache key r :
  c !! cache = None -> alter (insert key r) cache c = c.
Proof.
  intros E. apply map_eq. intros i. destruct (decide (cache = i)) as [->|Hne].
  - rewrite lookup_alter_eq, E. reflexivity.
  - apply lookup_alter_ne. exact Hne.
Qed.

Lemma put_is_Some c cache key r name :
  is_Some (alter (insert key r) cache c !! name) <-> is_Some (c !! name).
Proof.
  destruct (decide (cache = name)) as [->|Hne].
  - rewrite lookup_alter_eq. destruct (c !! name); simpl.
    + split; eauto.
    + split; intros [x Hx]; discriminate.
  - rewrite lookup_alter_ne by exact Hne. reflexivity.
Qed.

End StorageFacts.

(** ** The timed fetch *)

Section TimedFetch.
Import Platform ServiceWorker.
Variable net : Network.

(** A delay below 2^31 ms is kept as it is. *)
Lemma timer_delay_small t : t < 2147483648 -> timer_delay t = t.
Proof.
  intros Ht. unfold timer_delay. cbv zeta.
  rewrite N.mod_small by lia.
  destruct (N.ltb_spec t 2147483648); [reflexivity | lia].
Qed.

(** No delay is longer than the one asked for, and none reaches 2^31 ms. *)
Lemma timer_delay_le t : timer_delay t <= t /\ timer_delay t < 2147483648.
Proof.
  unfold timer_delay. cbv zeta.
  pose proof (N.Div0.mod_le t 4294967296) as Hle.
  destruct (N.ltb_spec (t mod 4294967296) 2147483648); lia.
Qed.

(** The race between the fetch and the timer, worked out. *)
Lemma fetchWithTimeout_race request t w :
  fetchWithTimeout net request t w =
  if timer_delay t <? latency (net (url request))
  then (Rejected "Network timeout",
        with_clock (clock w + timer_delay t) (log_fetch (url request) w))
  else (match settled (net (url request)) with
        | Resolves r => Fulfilled r
        | Rejects e => Rejected e
        end,
        with_clock (clock w + latency (net (url request)))
                   (log_fetch (url request) w)).
Proof.
  unfold fetchWithTimeout, bind, start, fetch, reject_after, Promise_race,
    await.
  generalize (timer_delay t). intros d.
  destruct (settled (net (url request))) as [r|e];
    cbn [fst snd clock with_clock log_fetch settles_at completion];
    rewrite (N.add_comm (clock w) d),
            (N.add_comm (clock w) (latency (net (url request))));
    destruct (N.ltb_spec (d + clock w) (latency (net (url request)) + clock w));
    destruct (N.ltb_spec d (latency (net (url request)))); try lia;
    unfold with_clock;
    cbn [caches fetched clock skipWaitingCalls claimed unhandled resolve];
    repeat f_equal; lia.
Qed.

(** The race for a timeout the timer keeps as it is, as the two timeouts
    of the worker are. *)
Lemma fetchWithTimeout_run request t w :
  timer_delay t = t ->
  fetchWithTimeout net request t w =
  if t <? latency (net (url request))
  then (Rejected "Network timeout",
        with_clock (clock w + t) (log_fetch (url request) w))
  else (match settled (net (url request)) with
        | Resolves r => Fulfilled r
        | Rejects e => Rejected e
        end,
        with_clock (clock w + latency (net (url request)))
                   (log_fetch (url request) w)).
Proof. intros Ht. rewrite fetchWithTimeout_race, Ht. reflexivity. Qed.

Lemma fetchWithTimeout_resolves request t w r :
  timer_delay t = t ->
  resolves_within net (url request) t r ->
  fetchWithTimeout net request t w =
  (Fulfilled r,
   with_clock (clock w + latency (net (url request)))
              (log_fetch (url request) w)).
Proof.
  intros Hd [Hr Ht]. rewrite fetchWithTimeout_run, Hr by exact Hd.
  destruct (N.ltb_spec t (latency (net (url request)))); [lia | reflexivity].
Qed.

Lemma fetchWithTimeout_fails request t w :
  timer_delay t = t ->
  fails_within net (url request) t ->
  exists e,
    fetchWithTimeout net request t w =
    (Rejected e,
     with_clock (clock w + N.min (latency (net (url request))) t)
                (log_fetch (url request) w)).
Proof.
  intros Hd Hf. rewrite fetchWithTimeout_run by exact Hd.
  destruct (N.ltb_spec t (latency (net (url request)))) as [Hlt|Hge].
  - exists "Network timeout". rewrite N.min_r by lia. reflexivity.
  - destruct Hf as [Hlt | [e He]]; [lia |].
    exists e. rewrite He, N.min_l by lia. reflexivity.
Qed.

(** A timed fetch either resolves in time or fails. *)
Lemma resolves_or_fails u t :
  (exists r, resolves_within net u t r) \/ fails_within net u t.
Proof.
  unfold resolves_within, fails_within.
  destruct (N.ltb_spec t (latency (net u))); [right; left; assumption |].
  destruct (settled (net u)) as [r|e]; [left | right; right]; eauto.
Qed.

Lemma resolves_not_fails u t r :
  resolves_within net u t r -> ~ fails_within net u t.
Proof.
  intros [Hr Ht] [Hlt | [e He]]; [lia | congruence].
Qed.

End TimedFetch.

(** ** The three strategies *)

Ltac run_task :=
  unfold Platform.fetch_string, Platform.cache_put_string;
  unfold Platform.bind, Platform.catch, Platform.ret, Platform.throw,
    Platform.detach, Platform.start, Platform.await, Platform.caches_open,
    Platform.cache_match, Platform.cache_put, Platform.fetch,
    Platform.Request_url, Platform.void, Platform.stored,
    ServiceWorker.respond;
  cbn [fst snd Platform.caches Platform.fetched Platform.clock
       Platform.skipWaitingCalls Platform.claimed Platform.unhandled
       Platform.resolve
       Platform.with_clock Platform.with_caches Platform.log_fetch
       Platform.log_unhandled Platform.settles_at Platform.completion].

Ltac run_string_task :=
  run_task;
  repeat progress
    (cbv beta iota zeta;
     cbn [fst snd Platform.caches Platform.fetched Platform.clock
          Platform.skipWaitingCalls Platform.claimed Platform.unhandled
          Platform.resolve
          Platform.with_clock Platform.with_caches Platform.log_fetch
          Platform.log_unhandled Platform.settles_at Platform.completion]).

Ltac world_eq :=
  unfold Platform.with_clock, Platform.with_caches, Platform.log_fetch,
    Platform.log_unhandled;
  cbn [Platform.caches Platform.fetched Platform.clock
       Platform.skipWaitingCalls Platform.claimed Platform.unhandled
       Platform.resolve];
  try reflexivity; try solve [repeat f_equal; lia].

Section DroppedPut.
Import Platform Effects.

(** The cache takes a response of status 200. *)
Lemma accepted_200 r : (status r =? 200)%Z = true -> accepted r = true.
Proof.
  intros H. apply Z.eqb_eq in H. unfold accepted. rewrite H. reflexivity.
Qed.

Lemma accepted_spec r : accepted r = true <-> status r <> 206%Z.
Proof.
  unfold accepted. rewrite negb_true_iff. apply Z.eqb_neq.
Qed.

Lemma refused_spec r : accepted r = false <-> status r = 206%Z.
Proof.
  unfold accepted. rewrite negb_false_iff. apply Z.eqb_eq.
Qed.

(** A [cache.put] whose promise is dropped. *)
Lemma detach_put cache key r w :
  detach (cache_put cache key r) w =
  (Fulfilled tt, put_dropped cache key r w).
Proof.
  unfold detach, cache_put, put_dropped.
  destruct (accepted r); f_equal; world_eq.
Qed.

Lemma caches_put_dropped cache key r w :
  caches (put_dropped cache key r w) =
  if accepted r then alter (insert key r) cache (caches w) else caches w.
Proof. unfold put_dropped. destruct (accepted r); reflexivity. Qed.

Lemma unhandled_put_dropped cache key r w :
  unhandled (put_dropped cache key r w) =
  if accepted r then unhandled w
  else (unhandled w ++ [PARTIAL_RESPONSE])%list.
Proof. unfold put_dropped. destruct (accepted r); reflexivity. Qed.

Lemma fetched_put_dropped cache key r w :
  fetched (put_dropped cache key r w) = fetched w.
Proof. unfold put_dropped. destruct (accepted r); reflexivity. Qed.

Lemma clock_put_dropped cache key r w :
  clock (put_dropped cache key r w) = clock w.
Proof. unfold put_dropped. destruct (accepted r); reflexivity. Qed.

Lemma skipWaitingCalls_put_dropped cache key r w :
  skipWaitingCalls (put_dropped cache key r w) = skipWaitingCalls w.
Proof. unfold put_dropped. destruct (accepted r); reflexivity. Qed.

Lemma claimed_put_dropped cache key r w :
  claimed (put_dropped cache key r w) = claimed w.
Proof. unfold put_dropped. destruct (accepted r); reflexivity. Qed.

Lemma resolve_put_dropped cache key r w :
  resolve (put_dropped cache key r w) = resolve w.
Proof. unfold put_dropped. destruct (accepted r); reflexivity. Qed.

End DroppedPut.

Create Rewrite HintDb world.
#[local] Hint Rewrite caches_put_dropped unhandled_put_dropped
  fetched_put_dropped clock_put_dropped skipWaitingCalls_put_dropped
  claimed_put_dropped resolve_put_dropped : world.

Section Strategies.
Import Platform ServiceWorker Effects.
Variable net : Network.

(** Cache-first with the request in the partition. *)
Lemma cacheFirst_hit request cacheName w cached :
  stored w cacheName (url request) = Some cached ->
  cacheFirstStrategy net request cacheName w =
  (Fulfilled cached,
   with_caches
     (fun c =>
        match settled (net (url request)) with
        | Resolves r =>
            if (status r =? 200)%Z
            then alter (insert (url request) r) cacheName c
            else c
        | Rejects _ => c
        end)
     (log_fetch (url request) w)).
Proof.
  intros Hhit. unfold cacheFirstStrategy, updateCacheInBackground.
  run_task. unfold stored in Hhit.
  rewrite entry_ensure, Hhit.
  pose proof (ensure_present _ _ (entry_present _ _ _ _ Hhit)) as Hopen.
  destruct (settled (net (url request))) as [r|e]; run_task;
    [destruct (status r =? 200)%Z eqn:H200; run_task;
       [rewrite (accepted_200 r H200); run_task |] |];
    f_equal; world_eq; rewrite Hopen; reflexivity.
Qed.

(** Cache-first without a copy, the network answering in time: the
    response is returned, and written unless the cache refuses it. *)
Lemma cacheFirst_miss_resolves request cacheName w r :
  stored w cacheName (url request) = None ->
  resolves_within net (url request) DEFAULT_TIMEOUT r ->
  cacheFirstStrategy net request cacheName w =
  (Fulfilled r,
   put_dropped cacheName (url request) r
     (with_caches (ensure cacheName)
        (with_clock (clock w + latency (net (url request)))
                    (log_fetch (url request) w)))).
Proof.
  intros Hmiss Hres. unfold cacheFirstStrategy.
  unfold catch, bind at 1, caches_open. unfold bind at 1, cache_match.
  unfold stored in *. cbn [caches with_caches].
  rewrite entry_ensure, Hmiss.
  unfold bind at 1.
  rewrite (fetchWithTimeout_resolves net _ _ _ r eq_refl Hres).
  unfold bind at 1. rewrite detach_put. unfold ret.
  reflexivity.
Qed.

(** Cache-first without a copy, the network failing. *)
Lemma cacheFirst_miss_fails request cacheName w :
  stored w cacheName (url request) = None ->
  fails_within net (url request) DEFAULT_TIMEOUT ->
  cacheFirstStrategy net request cacheName w =
  (Fulfilled (mkResponse 503 "Offline"),
   with_caches (ensure cacheName)
     (with_clock
        (clock w + N.min (latency (net (url request))) DEFAULT_TIMEOUT)
        (log_fetch (url request) w))).
Proof.
  intros Hmiss Hfail. unfold cacheFirstStrategy.
  unfold catch, bind at 1, caches_open. unfold bind at 1, cache_match.
  unfold stored in *. cbn [caches with_caches].
  rewrite entry_ensure, Hmiss.
  destruct (fetchWithTimeout_fails net request DEFAULT_TIMEOUT
              (with_caches (ensure cacheName) w) eq_refl Hfail) as [e He].
  unfold bind at 1. rewrite He. unfold ret. f_equal.
Qed.

(** Stale-while-revalidate, whatever the partition holds. *)
Lemma staleWhileRevalidate_resolves request cacheName w r :
  resolves_within net (url request) DEFAULT_TIMEOUT r ->
  staleWhileRevalidateStrategy net request cacheName w =
  (Fulfilled (Some (default r (stored w cacheName (url request)))),
   put_dropped cacheName (url request) r
     (with_caches (ensure cacheName)
        (with_clock
           (match stored w cacheName (url request) with
            | Some _ => clock w
            | None => clock w + latency (net (url request))
            end)
           (log_fetch (url request) w)))).
Proof.
  intros Hres. unfold staleWhileRevalidateStrategy.
  unfold bind at 1, caches_open. unfold bind at 1, cache_match.
  unfold bind at 1. unfold start at 1. unfold catch at 1.
  unfold bind at 1.
  rewrite (fetchWithTimeout_resolves net _ _ _ r eq_refl Hres).
  unfold bind at 1. rewrite detach_put. unfold ret, stored.
  cbn [caches with_caches]. rewrite entry_ensure.
  destruct (entry (caches w) cacheName (url request)); unfold await;
    cbn [completion settles_at default]; f_equal;
    unfold put_dropped; destruct (accepted r); world_eq.
Qed.

Lemma staleWhileRevalidate_fails request cacheName w :
  fails_within net (url request) DEFAULT_TIMEOUT ->
  staleWhileRevalidateStrategy net request cacheName w =
  (Fulfilled (stored w cacheName (url request)),
   with_caches (ensure cacheName)
     (with_clock
        (match stored w cacheName (url request) with
         | Some _ => clock w
         | None =>
             clock w + N.min (latency (net (url request))) DEFAULT_TIMEOUT
         end)
        (log_fetch (url request) w))).
Proof.
  intros Hfail. unfold staleWhileRevalidateStrategy. run_task.
  destruct (fetchWithTimeout_fails net request DEFAULT_TIMEOUT
              (with_caches (ensure cacheName) w) eq_refl Hfail) as [e He].
  rewrite He. run_task. rewrite entry_ensure.
  destruct (entry (caches w) cacheName (url request)); run_task;
    f_equal; world_eq.
Qed.

(** Network-first, the network answering in time. *)
Lemma networkFirst_resolves request cacheName w r :
  resolves_within net (url request) NETWORK_TIMEOUT r ->
  networkFirstStrategy net request cacheName w =
  (Fulfilled r,
   with_caches
     (fun c =>
        if (status r =? 200)%Z
        then alter (insert (url request) r) cacheName (ensure cacheName c)
        else c)
     (with_clock (clock w + latency (net (url request)))
                 (log_fetch (url request) w))).
Proof.
  intros Hres. unfold networkFirstStrategy. run_task.
  rewrite (fetchWithTimeout_resolves net _ _ _ r eq_refl Hres). run_task.
  destruct (status r =? 200)%Z eqn:H200; run_task;
    [rewrite (accepted_200 r H200); run_task |]; f_equal; world_eq.
Qed.

(** Network-first, the network failing: the error of the timed fetch is
    the one thrown again when the partition has no copy. *)
Lemma networkFirst_fails request cacheName w :
  fails_within net (url request) NETWORK_TIMEOUT ->
  exists e,
    (fetchWithTimeout net request NETWORK_TIMEOUT w).1 = Rejected e /\
    networkFirstStrategy net request cacheName w =
    (match stored w cacheName (url request) with
     | Some cached => Fulfilled cached
     | None => Rejected e
     end,
     with_caches (ensure cacheName)
       (with_clock
          (clock w + N.min (latency (net (url request))) NETWORK_TIMEOUT)
          (log_fetch (url request) w))).
Proof.
  intros Hfail. unfold networkFirstStrategy. run_task.
  destruct (fetchWithTimeout_fails net request NETWORK_TIMEOUT w eq_refl
              Hfail) as [e He].
  exists e. rewrite He. split; [reflexivity |]. run_task.
  rewrite entry_ensure.
  destruct (entry (caches w) cacheName (url request)); reflexivity.
Qed.

End Strategies.

(** ** Best-effort batches *)

Section Batches.
Import Platform ServiceWorker Effects.
Variable net : Network.
Implicit Types c : gmap string (gmap string Response).

Lemma world_eta w :
  mkWorld (caches w) (fetched w) (clock w) (skipWaitingCalls w) (claimed w)
          (unhandled w) (resolve w) = w.
Proof. destruct w. reflexivity. Qed.

Lemma arriving_resolved u r :
  settled (net u) = Resolves r -> status r <> 206%Z ->
  arriving net u = Some r.
Proof.
  intros Hr Hs. unfold arriving. rewrite Hr.
  apply accepted_spec in Hs. rewrite Hs. reflexivity.
Qed.

Lemma arriving_refused u r :
  settled (net u) = Resolves r -> status r = 206%Z -> arriving net u = None.
Proof.
  intros Hr Hs. unfold arriving. rewrite Hr.
  apply refused_spec in Hs. rewrite Hs. reflexivity.
Qed.

Lemma arriving_rejected u e :
  settled (net u) = Rejects e -> arriving net u = None.
Proof. intros Hr. unfold arriving. rewrite Hr. reflexivity. Qed.

Lemma arriving_None u : fails_or_refused net u -> arriving net u = None.
Proof.
  intros [[e He] | [r [Hr Hs]]].
  - eapply arriving_rejected. exact He.
  - eapply arriving_refused; eassumption.
Qed.

Lemma arriving_Some u r :
  arriving net u = Some r ->
  settled (net u) = Resolves r /\ status r <> 206%Z.
Proof.
  unfold arriving. destruct (settled (net u)) as [r'|e]; [|discriminate].
  destruct (accepted r') eqn:Hacc; [|discriminate].
  intros [= <-]. split; [reflexivity | apply accepted_spec; exact Hacc].
Qed.

(** One element of a batch: the URL the string names is fetched, a
    response the cache takes is written, anything else is swallowed. *)
Lemma start_fetch_into cache u w :
  start (fetch_into net cache u) w =
  (Fulfilled (mkPromise (clock w + latency (net (resolve w u))) (Fulfilled tt)),
   with_caches (written net cache [resolve w u]) (log_fetch (resolve w u) w)).
Proof.
  unfold fetch_into, written, arriving. run_string_task. cbn [fold_left].
  destruct (settled (net (resolve w u))) as [r|e]; run_string_task;
    [destruct (accepted r); run_string_task |]; f_equal; world_eq.
Qed.

Lemma written_app cache urls urls' c :
  written net cache (urls ++ urls') c =
  written net cache urls' (written net cache urls c).
Proof. unfold written. apply fold_left_app. Qed.

(** The elements of a batch, started one after the other. *)
Lemma start_each_fetch_into cache urls w :
  mapM (fun u => start (fetch_into net cache u)) urls w =
  (Fulfilled
     (map (fun u => mkPromise (clock w + latency (net u)) (Fulfilled tt))
          (map (resolve w) urls)),
   mkWorld (written net cache (map (resolve w) urls) (caches w))
           (fetched w ++ map (resolve w) urls)
           (clock w) (skipWaitingCalls w) (claimed w) (unhandled w)
           (resolve w)).
Proof.
  revert w. induction urls as [|u urls IH]; intros w; cbn [mapM map].
  - unfold ret, written. cbn [fold_left]. rewrite app_nil_r, world_eta.
    reflexivity.
  - unfold bind at 1. rewrite start_fetch_into.
    unfold bind at 1. rewrite IH. unfold ret.
    cbn [caches fetched clock skipWaitingCalls claimed unhandled resolve
         with_caches log_fetch].
    rewrite <- app_assoc. reflexivity.
Qed.

Lemma first_rejection_fulfilled {A B} (f : B -> Promise A) (xs : list B) :
  (forall x, exists a, completion (f x) = Fulfilled a) ->
  first_rejection (map f xs) = None.
Proof.
  intros Hf. induction xs as [|x xs IH]; cbn [map first_rejection].
  - reflexivity.
  - destruct (Hf x) as [a ->]. exact IH.
Qed.

Lemma last_settled_latency (t : N) {A} (k : string -> Completion A) urls :
  N.max t (last_settled
             (map (fun u => mkPromise (t + latency (net u)) (k u)) urls)) =
  t + slowest net urls.
Proof.
  unfold last_settled, slowest.
  induction urls as [|u urls IH]; cbn [map fold_right settles_at]; lia.
Qed.

(** A whole batch: open the partition, start every element, wait for all
    of them.  It never rejects, it issues one fetch per URL string, for the
    URL the string names, and it waits for the slowest. *)
Lemma batch_run cache urls w :
  (bind (caches_open cache) (fun opened =>
   bind (mapM (fun u => start (fetch_into net opened u)) urls) (fun ps =>
   Promise_all ps))) w =
  (Fulfilled (map (fun _ => tt) urls),
   mkWorld (written net cache (map (resolve w) urls)
              (ensure cache (caches w)))
           (fetched w ++ map (resolve w) urls)
           (clock w + slowest net (map (resolve w) urls))
           (skipWaitingCalls w) (claimed w) (unhandled w) (resolve w)).
Proof.
  unfold bind at 1. unfold caches_open.
  unfold bind at 1. rewrite start_each_fetch_into.
  cbn [caches fetched clock skipWaitingCalls claimed unhandled resolve
       with_caches].
  unfold Promise_all. rewrite first_rejection_fulfilled by eauto.
  cbn [clock]. rewrite last_settled_latency. f_equal.
  induction urls as [|u urls IH]; cbn [map fulfilled_values completion];
    congruence.
Qed.

(** *** What a batch leaves in cache storage *)

Lemma written_cons cache u urls c :
  written net cache (u :: urls) c =
  written net cache urls (written net cache [u] c).
Proof. reflexivity. Qed.

Lemma written_one cache u c :
  written net cache [u] c =
  match arriving net u with
  | Some r => alter (insert u r) cache c
  | None => c
  end.
Proof. reflexivity. Qed.

(** A batch neither creates nor removes a partition. *)
Lemma written_is_Some cache urls c name :
  is_Some (written net cache urls c !! name) <-> is_Some (c !! name).
Proof.
  revert c. induction urls as [|u urls IH]; intros c.
  - reflexivity.
  - rewrite written_cons, IH, written_one.
    destruct (arriving net u); [apply put_is_Some | reflexivity].
Qed.

(** Entries of other partitions, of URLs outside the batch and of URLs
    for which nothing arrives are as before. *)
Lemma entry_written_other cache urls c cache' key :
  cache <> cache' \/ ~ In key urls \/ arriving net key = None ->
  entry (written net cache urls c) cache' key = entry c cache' key.
Proof.
  revert c. induction urls as [|u urls IH]; intros c Hother.
  - reflexivity.
  - rewrite written_cons, IH, written_one.
    + destruct (arriving net u) as [r|] eqn:Hu; [|reflexivity].
      apply entry_put_ne.
      destruct Hother as [Hc | [Hk | He]].
      * left. exact Hc.
      * right. intros ->. apply Hk. left. reflexivity.
      * right. intros ->. congruence.
    + destruct Hother as [Hc | [Hk | He]]; [auto | | auto].
      right. left. intros Hin. apply Hk. right. exact Hin.
Qed.

(** Every URL of the batch for which a response arrives is in the
    partition, with the response the network gave. *)
Lemma entry_written_resolved cache urls c u r :
  is_Some (c !! cache) -> In u urls -> arriving net u = Some r ->
  entry (written net cache urls c) cache u = Some r.
Proof.
  revert c. induction urls as [|v urls IH]; intros c Hc Hin Hr.
  - destruct Hin.
  - rewrite written_cons.
    assert (Hc' : is_Some (written net cache [v] c !! cache))
      by (apply written_is_Some; exact Hc).
    destruct (in_dec string_dec u urls) as [Hrest|Hrest].
    + apply IH; assumption.
    + destruct Hin as [->|Hin]; [|contradiction].
      rewrite entry_written_other by (right; left; exact Hrest).
      rewrite written_one, Hr. apply entry_put_eq. exact Hc.
Qed.

(** *** [addAll] *)

Lemma start_fetch_ok u w :
  start (fetch_ok net u) w =
  (Fulfilled (mkPromise (clock w + latency (net (resolve w u)))
                        (checked net (resolve w u))),
   log_fetch (resolve w u) w).
Proof.
  unfold fetch_ok, checked. run_string_task.
  destruct (settled (net (resolve w u))) as [r|e]; run_string_task;
    [destruct (addable r); run_string_task |]; f_equal; world_eq.
Qed.

Lemma start_each_fetch_ok urls w :
  mapM (fun u => start (fetch_ok net u)) urls w =
  (Fulfilled
     (map (fun u => mkPromise (clock w + latency (net u)) (checked net u))
          (map (resolve w) urls)),
   mkWorld (caches w) (fetched w ++ map (resolve w) urls) (clock w)
           (skipWaitingCalls w) (claimed w) (unhandled w) (resolve w)).
Proof.
  revert w. induction urls as [|u urls IH]; intros w; cbn [mapM map].
  - unfold ret. rewrite app_nil_r, world_eta. reflexivity.
  - unfold bind at 1. rewrite start_fetch_ok.
    unfold bind at 1. rewrite IH. unfold ret.
    cbn [caches fetched clock skipWaitingCalls claimed unhandled resolve
         log_fetch].
    rewrite <- app_assoc. reflexivity.
Qed.

Lemma checked_ok u :
  resolves_ok net u = true ->
  exists r, settled (net u) = Resolves r /\ checked net u = Fulfilled r
            /\ arriving net u = Some r.
Proof.
  unfold resolves_ok, checked, arriving.
  destruct (settled (net u)) as [r|e]; [|discriminate].
  intros Hok. rewrite Hok. exists r.
  unfold addable in Hok. apply andb_true_iff in Hok. destruct Hok as [_ ->].
  auto.
Qed.

Lemma checked_not_ok u :
  resolves_ok net u = false -> exists e, checked net u = Rejected e.
Proof.
  unfold resolves_ok, checked.
  destruct (settled (net u)) as [r|e]; [intros ->|]; eauto.
Qed.

Lemma first_rejection_none (t : N) urls :
  forallb (resolves_ok net) urls = true ->
  first_rejection
    (map (fun u => mkPromise (t + latency (net u)) (checked net u)) urls) =
  None.
Proof.
  induction urls as [|u urls IH]; cbn [forallb map first_rejection completion].
  - reflexivity.
  - rewrite andb_true_iff. intros [Hu Hrest].
    destruct (checked_ok u Hu) as [r [_ [-> _]]]. apply IH. exact Hrest.
Qed.

Lemma first_rejection_some (t : N) urls :
  forallb (resolves_ok net) urls = false ->
  exists t' e,
    first_rejection
      (map (fun u => mkPromise (t + latency (net u)) (checked net u)) urls) =
    Some (t', e).
Proof.
  induction urls as [|u urls IH];
    cbn [forallb map first_rejection completion settles_at].
  - discriminate.
  - destruct (resolves_ok net u) eqn:Hu; cbn [andb].
    + destruct (checked_ok u Hu) as [r [_ [-> _]]]. exact IH.
    + intros _. destruct (checked_not_ok u Hu) as [e ->].
      destruct (first_rejection _) as [[t' e']|]; [|eauto].
      destruct (t' <? _); eauto.
Qed.

(** The writes of [addAll] once every fetch has resolved with a response
    it takes: those of a batch in which nothing failed. *)
Lemma put_each_fulfilled (t : N) cache urls w (rs : string -> string) :
  resolve w = rs ->
  forallb (resolves_ok net) (map rs urls) = true ->
  put_each cache
    (combine urls
       (fulfilled_values
          (map (fun u => mkPromise (t + latency (net u)) (checked net u))
               (map rs urls)))) w =
  (Fulfilled tt, with_caches (written net cache (map rs urls)) w).
Proof.
  revert w. induction urls as [|u urls IH]; intros w Hrs;
    cbn [forallb map fulfilled_values completion].
  - intros _. cbn [combine put_each]. unfold ret, with_caches, written.
    cbn [fold_left]. rewrite world_eta. reflexivity.
  - rewrite andb_true_iff. intros [Hu Hrest].
    destruct (checked_ok (rs u) Hu) as [r [Hr [-> Harr]]].
    cbn [combine put_each]. unfold bind at 1.
    unfold cache_put_string, bind, Request_url, cache_put.
    rewrite Hrs.
    assert (Hacc : accepted r = true).
    { apply arriving_Some in Harr. apply accepted_spec. apply Harr. }
    rewrite Hacc, IH by (exact Hrs || exact Hrest).
    unfold with_caches.
    cbn [caches fetched clock skipWaitingCalls claimed unhandled resolve].
    rewrite (written_cons cache (rs u) (map rs urls)), written_one, Harr.
    reflexivity.
Qed.

Lemma addAll_ok cache urls w :
  forallb (resolves_ok net) (map (resolve w) urls) = true ->
  cache_addAll net cache urls w =
  (Fulfilled tt,
   mkWorld (written net cache (map (resolve w) urls) (caches w))
           (fetched w ++ map (resolve w) urls)
           (clock w + slowest net (map (resolve w) urls))
           (skipWaitingCalls w) (claimed w) (unhandled w) (resolve w)).
Proof.
  intros Hok. unfold cache_addAll.
  unfold bind at 1. rewrite start_each_fetch_ok.
  unfold bind at 1. unfold Promise_all.
  cbn [clock]. rewrite first_rejection_none by exact Hok.
  rewrite (put_each_fulfilled _ _ _ _ (resolve w))
    by first [exact Hok | reflexivity].
  rewrite last_settled_latency. reflexivity.
Qed.

Lemma addAll_fail cache urls w :
  forallb (resolves_ok net) (map (resolve w) urls) = false ->
  exists e t,
    cache_addAll net cache urls w =
    (Rejected e,
     mkWorld (caches w) (fetched w ++ map (resolve w) urls) t
             (skipWaitingCalls w) (claimed w) (unhandled w) (resolve w)).
Proof.
  intros Hbad. unfold cache_addAll.
  unfold bind at 1. rewrite start_each_fetch_ok.
  unfold bind at 1. unfold Promise_all. cbn [clock].
  destruct (first_rejection_some (clock w) _ Hbad) as [t' [e ->]].
  exists e. eexists. reflexivity.
Qed.

End Batches.

(** ** The listeners *)

Section Listeners.
Import JsString Platform ServiceWorker Effects.
Variable net : Network.
Implicit Types c : gmap string (gmap string Response).

(** *** install *)

Lemma precache_ok w :
  forallb (resolves_ok net) (map (resolve w) PRECACHE_URLS) = true ->
  start (bind (caches_open CRITICAL_CACHE) (fun cache =>
         cache_addAll net cache PRECACHE_URLS)) w =
  (Fulfilled
     (mkPromise (clock w + slowest net (map (resolve w) PRECACHE_URLS))
                (Fulfilled tt)),
   mkWorld
     (written net CRITICAL_CACHE (map (resolve w) PRECACHE_URLS)
        (ensure CRITICAL_CACHE (caches w)))
     (fetched w ++ map (resolve w) PRECACHE_URLS) (clock w)
     (skipWaitingCalls w) (claimed w) (unhandled w) (resolve w)).
Proof.
  intros Hok. unfold start, bind, caches_open.
  rewrite addAll_ok by exact Hok. reflexivity.
Qed.

Lemma precache_fail w :
  forallb (resolves_ok net) (map (resolve w) PRECACHE_URLS) = false ->
  exists e t,
    start (bind (caches_open CRITICAL_CACHE) (fun cache =>
           cache_addAll net cache PRECACHE_URLS)) w =
    (Fulfilled (mkPromise t (Rejected e)),
     mkWorld (ensure CRITICAL_CACHE (caches w))
       (fetched w ++ map (resolve w) PRECACHE_URLS) (clock w)
       (skipWaitingCalls w) (claimed w) (unhandled w) (resolve w)).
Proof.
  intros Hbad. unfold start, bind, caches_open.
  destruct (addAll_fail net CRITICAL_CACHE PRECACHE_URLS
              (with_caches (ensure CRITICAL_CACHE) w) Hbad) as [e [t ->]].
  exists e, t. reflexivity.
Qed.

Lemma preload_run w :
  start (void (preloadCriticalResources net)) w =
  (Fulfilled (mkPromise (clock w + slowest net (map (resolve w) fonts))
                        (Fulfilled tt)),
   mkWorld (written net STATIC_CACHE (map (resolve w) fonts)
              (ensure STATIC_CACHE (caches w)))
     (fetched w ++ map (resolve w) fonts) (clock w) (skipWaitingCalls w)
     (claimed w) (unhandled w) (resolve w)).
Proof.
  unfold start, void, preloadCriticalResources.
  unfold bind at 1. rewrite batch_run. reflexivity.
Qed.

(** Install with every precache URL answering with a response [addAll]
    takes. *)
Lemma on_install_ok w :
  forallb (resolves_ok net) (map (resolve w) PRECACHE_URLS) = true ->
  exists t,
    on_install net w =
    (Fulfilled tt,
     mkWorld
       (written net STATIC_CACHE (map (resolve w) fonts)
          (ensure STATIC_CACHE
             (written net CRITICAL_CACHE (map (resolve w) PRECACHE_URLS)
                (ensure CRITICAL_CACHE (caches w)))))
       ((fetched w ++ map (resolve w) PRECACHE_URLS)
        ++ map (resolve w) fonts) t
       (S (skipWaitingCalls w)) (claimed w) (unhandled w) (resolve w)).
Proof.
  intros Hok. unfold on_install.
  unfold bind at 1. rewrite precache_ok by exact Hok.
  unfold bind at 1. rewrite preload_run.
  eexists. reflexivity.
Qed.

(** Install with a precache URL that fails or answers with a response
    [addAll] does not take: the install is rejected and the precache list
    leaves nothing in the critical partition. *)
Lemma on_install_fail w :
  forallb (resolves_ok net) (map (resolve w) PRECACHE_URLS) = false ->
  exists e t,
    on_install net w =
    (Rejected e,
     mkWorld
       (written net STATIC_CACHE (map (resolve w) fonts)
          (ensure STATIC_CACHE (ensure CRITICAL_CACHE (caches w))))
       ((fetched w ++ map (resolve w) PRECACHE_URLS)
        ++ map (resolve w) fonts) t
       (S (skipWaitingCalls w)) (claimed w) (unhandled w) (resolve w)).
Proof.
  intros Hbad. unfold on_install.
  destruct (precache_fail w Hbad) as [e [t Hrun]].
  unfold bind at 1. rewrite Hrun.
  unfold bind at 1. rewrite preload_run.
  unfold bind, start, skipWaiting, void, Promise_all.
  cbn [clock caches fetched skipWaitingCalls claimed unhandled resolve
       with_clock first_rejection completion settles_at].
  eexists. eexists. reflexivity.
Qed.

(** *** activate *)

Lemma start_each_delete names w :
  exists ps,
    mapM (fun name => start (caches_delete name)) names w =
    (Fulfilled ps,
     with_caches (fold_left (fun acc name => delete name acc) names) w)
    /\ first_rejection ps = None
    /\ N.max (clock w) (last_settled ps) = clock w.
Proof.
  revert w. induction names as [|name names IH]; intros w; cbn [mapM].
  - exists []. unfold ret, with_caches. cbn [fold_left].
    rewrite world_eta. repeat split. unfold last_settled. cbn. lia.
  - destruct (IH (with_clock (clock w) (with_caches (delete name) w)))
      as [ps [Hrun [Hnone Hlast]]].
    eexists. unfold bind at 1. unfold start at 1, caches_delete at 1.
    unfold bind at 1. rewrite Hrun. unfold ret. split; [|split].
    + reflexivity.
    + cbn [first_rejection completion]. exact Hnone.
    + unfold last_settled in *. cbn [fold_right settles_at clock with_clock
        with_caches] in *. lia.
Qed.

Lemma fold_delete_absent names c name :
  c !! name = None ->
  fold_left (fun acc n => delete n acc) names c !! name = None.
Proof.
  revert c. induction names as [|n names IH]; intros c Hc; cbn [fold_left].
  - exact Hc.
  - apply IH. rewrite lookup_delete_None. right. exact Hc.
Qed.

Lemma fold_delete_in names c name :
  In name names ->
  fold_left (fun acc n => delete n acc) names c !! name = None.
Proof.
  revert c. induction names as [|n names IH]; intros c Hin; cbn [fold_left].
  - destruct Hin.
  - destruct Hin as [->|Hin].
    + apply fold_delete_absent, lookup_delete_eq.
    + apply IH. exact Hin.
Qed.

Lemma fold_delete_notin names c name :
  ~ In name names ->
  fold_left (fun acc n => delete n acc) names c !! name = c !! name.
Proof.
  revert c. induction names as [|n names IH]; intros c Hin; cbn [fold_left].
  - reflexivity.
  - rewrite IH by (intros H; apply Hin; right; exact H).
    apply lookup_delete_ne. intros ->. apply Hin. left. reflexivity.
Qed.

(** The deletions remove the partitions without the tag and only them. *)
Lemma pruned_lookup c name :
  pruned c !! name = if tagged name then c !! name else None.
Proof.
  unfold pruned. destruct (tagged name) eqn:Htag.
  - apply fold_delete_notin. rewrite filter_In, Htag.
    intros [_ Hfalse]. discriminate.
  - destruct (c !! name) as [p|] eqn:Hc.
    + apply fold_delete_in. rewrite filter_In, Htag. split; [|reflexivity].
      apply list_elem_of_In, elem_of_elements, elem_of_dom. eauto.
    + apply fold_delete_absent. exact Hc.
Qed.

Lemma cleanup_run w :
  start (void
    (bind caches_keys (fun cacheNames =>
     bind (mapM (fun cacheName => start (caches_delete cacheName))
             (List.filter
                (fun cacheName => negb (includes cacheName CACHE_VERSION))
                cacheNames)) (fun ps =>
     Promise_all ps)))) w =
  (Fulfilled (mkPromise (clock w) (Fulfilled tt)), with_caches pruned w).
Proof.
  unfold start at 1. unfold void. unfold bind at 1. unfold bind at 1.
  unfold caches_keys at 1.
  destruct (start_each_delete
              (List.filter
                 (fun cacheName => negb (includes cacheName CACHE_VERSION))
                 (elements (dom (caches w)))) w)
    as [ps [Hrun [Hnone Hlast]]].
  unfold bind at 1. rewrite Hrun. unfold Promise_all. rewrite Hnone.
  cbn [clock with_caches]. rewrite Hlast. unfold ret.
  reflexivity.
Qed.

Lemma warmup_run w :
  start (void (warmupCache net)) w =
  (Fulfilled (mkPromise (clock w + slowest net (map (resolve w) criticalPages))
                        (Fulfilled tt)),
   mkWorld
     (written net CRITICAL_CACHE (map (resolve w) criticalPages)
        (ensure CRITICAL_CACHE (caches w)))
     (fetched w ++ map (resolve w) criticalPages) (clock w)
     (skipWaitingCalls w) (claimed w) (unhandled w) (resolve w)).
Proof.
  unfold start, void, warmupCache.
  unfold bind at 1. rewrite batch_run. reflexivity.
Qed.

(** Activation always succeeds: the partitions without the tag are gone,
    the pages are claimed, the critical partition is warmed. *)
Lemma on_activate_run w :
  on_activate net w =
  (Fulfilled tt,
   mkWorld
     (written net CRITICAL_CACHE (map (resolve w) criticalPages)
        (ensure CRITICAL_CACHE (pruned (caches w))))
     (fetched w ++ map (resolve w) criticalPages)
     (clock w + slowest net (map (resolve w) criticalPages))
     (skipWaitingCalls w) true (unhandled w) (resolve w)).
Proof.
  unfold on_activate.
  unfold bind at 1. rewrite cleanup_run.
  unfold bind at 1. unfold start at 1, clients_claim.
  unfold bind at 1. rewrite warmup_run.
  unfold void, bind, Promise_all, ret.
  cbn [clock caches fetched skipWaitingCalls claimed unhandled resolve
       with_clock with_caches first_rejection completion settles_at
       last_settled fold_right].
  f_equal. unfold with_clock.
  cbn [clock caches fetched skipWaitingCalls claimed unhandled resolve].
  f_equal. lia.
Qed.

(** *** message *)

Lemma on_message_skip w :
  on_message net SKIP_WAITING w =
  (Fulfilled tt,
   mkWorld (caches w) (fetched w) (clock w) (S (skipWaitingCalls w))
           (claimed w) (unhandled w) (resolve w)).
Proof. reflexivity. Qed.

Lemma cachePage_run u w :
  cachePage net u w =
  (Fulfilled tt,
   mkWorld (written net DYNAMIC_CACHE [resolve w u]
              (ensure DYNAMIC_CACHE (caches w)))
     (fetched w ++ [resolve w u]) (clock w + latency (net (resolve w u)))
     (skipWaitingCalls w) (claimed w) (unhandled w) (resolve w)).
Proof.
  unfold cachePage. rewrite written_one. unfold arriving. run_string_task.
  destruct (settled (net (resolve w u))) as [r|e]; run_string_task;
    [destruct (accepted r); run_string_task |]; reflexivity.
Qed.

Lemma on_message_cache_page u w :
  on_message net (CACHE_PAGE u) w =
  (Fulfilled tt,
   mkWorld (written net DYNAMIC_CACHE [resolve w u]
              (ensure DYNAMIC_CACHE (caches w)))
     (fetched w ++ [resolve w u]) (clock w) (skipWaitingCalls w) (claimed w)
     (unhandled w) (resolve w)).
Proof.
  cbn [on_message]. unfold detach. rewrite cachePage_run. reflexivity.
Qed.

Lemma on_message_prefetch routes w :
  on_message net (PREFETCH_ROUTES routes) w =
  (Fulfilled tt,
   mkWorld
     (written net CRITICAL_CACHE (map (resolve w) routes)
        (ensure CRITICAL_CACHE (caches w)))
     (fetched w ++ map (resolve w) routes) (clock w) (skipWaitingCalls w)
     (claimed w) (unhandled w) (resolve w)).
Proof.
  cbn [on_message]. unfold detach, prefetchRoutes.
  rewrite batch_run. reflexivity.
Qed.

(** A [PREFETCH_ROUTES] message without a list of routes: the partition
    is opened and the exception of [routes.map] is left unhandled. *)
Lemma on_message_no_array w :
  on_message net PREFETCH_ROUTES_no_array w =
  (Fulfilled tt,
   mkWorld (ensure CRITICAL_CACHE (caches w)) (fetched w) (clock w)
     (skipWaitingCalls w) (claimed w)
     (unhandled w ++ ["TypeError: routes.map is not a function"])
     (resolve w)).
Proof. reflexivity. Qed.

Lemma on_message_other type w :
  on_message net (OtherType type) w = (Fulfilled tt, w).
Proof. reflexivity. Qed.

End Listeners.

(** ** Classification and dispatch *)

Section Dispatch.
Import JsString Platform ServiceWorker Examples.

Lemma is_critical_path_suffix request suffix prefix :
  In suffix CACHE_STRATEGIES_critical ->
  pathname request = String.append prefix suffix ->
  is_critical_path request = true.
Proof.
  intros Hin Hpath. unfold is_critical_path. apply existsb_exists.
  exists suffix. split; [exact Hin |].
  apply orb_true_iff. right. apply endsWith_spec. eauto.
Qed.

(** [handleRequest] is the dispatch on the class of the request. *)
Lemma handleRequest_dispatch (net : Network) (host : string)
  (request : Request) :
  handleRequest net host request
  = dispatch net (classify host request) request.
Proof.
  unfold handleRequest, classify, is_critical_path, is_static_destination,
    is_external.
  destruct (existsb _ CACHE_STRATEGIES_critical); [reflexivity |].
  destruct (_ || _ || _); [reflexivity |].
  destruct (negb _); reflexivity.
Qed.

Lemma classify_by_unique host order request c :
  In c order -> condition host c request = true ->
  (forall c', In c' order -> c' <> c -> condition host c' request = false) ->
  classify_by host order request = c.
Proof.
  induction order as [|d order IH]; intros Hin Hc Hothers.
  - destruct Hin.
  - cbn [classify_by]. destruct (condition host d request) eqn:Hd.
    + destruct (ResourceClass_eq_dec d c) as [Heq|Hne]; [exact Heq |].
      rewrite (Hothers d) in Hd by (auto; left; reflexivity).
      discriminate.
    + apply IH.
      * destruct Hin as [->|Hin]; [congruence | exact Hin].
      * exact Hc.
      * intros c' Hin'. apply Hothers. right. exact Hin'.
Qed.

Lemma classify_by_none host order request :
  (forall c, In c order -> condition host c request = false) ->
  classify_by host order request = Dynamic.
Proof.
  induction order as [|d order IH]; intros Hnone.
  - reflexivity.
  - cbn [classify_by]. rewrite (Hnone d) by (left; reflexivity).
    apply IH. intros c Hin. apply Hnone. right. exact Hin.
Qed.

(** C6 (as amended): [handleRequest] gives every request exactly one of
    the four classes, by a pure function of the request and of the
    worker's host name, and hands it to the strategy of that class; the
    class is the first one whose condition holds in the fixed order
    critical path, destination, origin.  The order of the tests is
    immaterial for the requests on which no two of the conditions hold
    together, and only for them: when two conditions hold of a request,
    trying them in some other order gives another class. *)
Theorem classification_first_match (net : Network) (host : string)
  (request : Request) :
  handleRequest net host request
  = dispatch net (classify host request) request
  /\ classify host request
     = classify_by host [Critical; StaticAsset; External] request
  /\ ((forall order,
         Permutation order [Critical; StaticAsset; External] ->
         classify_by host order request = classify host request)
      <->
      is_critical_path request && is_static_destination request = false
      /\ is_critical_path request && is_external host request = false
      /\ is_static_destination request && is_external host request = false).
Proof.
  split; [apply handleRequest_dispatch | split].
  - unfold classify, classify_by, condition.
    destruct (is_critical_path request); [reflexivity |].
    destruct (is_static_destination request); [reflexivity |].
    destruct (is_external host request); reflexivity.
  - split.
    + intros Hall.
      pose proof (Hall [StaticAsset; Critical; External] (perm_swap _ _ _))
        as Hsc.
      pose proof (Hall [External; StaticAsset; Critical]
                    (Permutation_sym
                       (Permutation_rev [Critical; StaticAsset; External])))
        as Hesc.
      unfold classify, classify_by, condition in Hsc, Hesc.
      destruct (is_critical_path request);
        destruct (is_static_destination request);
        destruct (is_external host request);
        cbn [andb]; try discriminate; auto.
    + intros [Hcs [Hce Hse]] order Hperm.
      assert (Hmem : forall c, In c order -> c <> Dynamic).
      { intros c Hin. apply (Permutation_in _ Hperm) in Hin.
        cbn in Hin. intuition (subst; discriminate). }
      assert (Hall : forall c, c <> Dynamic -> In c order).
      { intros c Hc. apply (Permutation_in _ (Permutation_sym Hperm)).
        destruct c; cbn; auto; contradiction. }
      unfold classify.
      destruct (is_critical_path request) eqn:Hc;
        destruct (is_static_destination request) eqn:Hs;
        destruct (is_external host request) eqn:He;
        try discriminate.
      * apply classify_by_unique; [apply Hall; discriminate | exact Hc |].
        intros c' Hin Hne. specialize (Hmem c' Hin).
        destruct c'; cbn [condition]; congruence.
      * apply classify_by_unique; [apply Hall; discriminate | exact Hs |].
        intros c' Hin Hne. specialize (Hmem c' Hin).
        destruct c'; cbn [condition]; congruence.
      * apply classify_by_unique; [apply Hall; discriminate | exact He |].
        intros c' Hin Hne. specialize (Hmem c' Hin).
        destruct c'; cbn [condition]; congruence.
      * apply classify_by_none. intros c Hin. specialize (Hmem c Hin).
        destruct c; cbn [condition]; congruence.
Qed.

Lemma classification_first_match_witness :
  classify_by "example.com" [External; StaticAsset; Critical]
    (request_of "example.com" "/css/site.css" "style")
  = classify "example.com" (request_of "example.com" "/css/site.css" "style")
  /\ classify "example.com" (request_of "example.com" "/css/site.css" "style")
     = StaticAsset.
Proof.
  destruct (classification_first_match online "example.com"
              (request_of "example.com" "/css/site.css" "style"))
    as [_ [_ [_ Hany]]].
  split; [| reflexivity].
  apply Hany.
  - split; [reflexivity | split; reflexivity].
  - apply Permutation_sym.
    apply (Permutation_rev [Critical; StaticAsset; External]).
Defined.

(** C6 (counterexample): the conditions overlap, so the class depends on
    the order in which they are tried.  A page of the site that fetches
    [/index.html] from another origin makes a request that is critical for
    the worker and external when the origin is tested first. *)
Lemma classification_order_matters :
  classify "example.com" (request_of "cdn.example.net" "/index.html" "")
  = Critical
  /\ classify_by "example.com" [External; StaticAsset; Critical]
       (request_of "cdn.example.net" "/index.html" "")
     = External.
Proof. split; reflexivity. Qed.

(** C10: a request whose path ends with an entry of the critical allowlist
    is served cache-first from the critical partition, whether or not the
    path itself is in the allowlist; the [fetch] listener hands every GET
    request it does not skip to that strategy. *)
Theorem critical_by_suffix (net : Network) (host : string)
  (request : Request) (suffix prefix : string) :
  In suffix CACHE_STRATEGIES_critical ->
  pathname request = String.append prefix suffix ->
  handleRequest net host request
  = respond (cacheFirstStrategy net request CRITICAL_CACHE)
  /\ (method request = "GET" ->
      protocol request <> "chrome-extension:" ->
      includes (hostname request) "google-analytics" = false ->
      on_fetch net host request
      = Some (respond (cacheFirstStrategy net request CRITICAL_CACHE))).
Proof.
  intros Hin Hpath.
  pose proof (is_critical_path_suffix request suffix prefix Hin Hpath) as Hc.
  assert (Hh : handleRequest net host request
               = respond (cacheFirstStrategy net request CRITICAL_CACHE)).
  { unfold handleRequest. unfold is_critical_path in Hc. rewrite Hc.
    reflexivity. }
  split; [exact Hh |].
  intros Hget Hproto Hhost. unfold on_fetch.
  rewrite Hget, Hhost, Hh. cbn [String.eqb Ascii.eqb Bool.eqb negb].
  destruct (String.eqb_spec (protocol request) "chrome-extension:");
    [contradiction | reflexivity].
Qed.

Lemma critical_by_suffix_witness :
  ~ In "/blog/index.html" CACHE_STRATEGIES_critical
  /\ handleRequest online "example.com"
       (request_of "example.com" "/blog/index.html" "document")
     = respond
         (cacheFirstStrategy online
            (request_of "example.com" "/blog/index.html" "document")
            CRITICAL_CACHE)
  /\ on_fetch online "example.com"
       (request_of "example.com" "/blog/index.html" "document")
     = Some
         (respond
            (cacheFirstStrategy online
               (request_of "example.com" "/blog/index.html" "document")
               CRITICAL_CACHE)).
Proof.
  split.
  - cbn. intuition discriminate.
  - pose proof (critical_by_suffix online "example.com"
                  (request_of "example.com" "/blog/index.html" "document")
                  "/index.html" "/blog") as H.
    destruct H as [Hh Hf].
    + cbn. auto.
    + reflexivity.
    + split; [exact Hh |]. apply Hf.
      * reflexivity.
      * discriminate.
      * reflexivity.
Defined.

End Dispatch.

(** ** What each strategy returns and stores *)

Section StrategyClaims.
Import JsString Platform ServiceWorker Effects Examples.

(** C4 (as amended): cache-first.  With the request in the partition
    the cached response is returned with no time spent waiting, and one
    fetch is issued in the background, which overwrites the entry when it
    resolves with status 200 and changes nothing otherwise.  Without a copy
    one timed fetch is made and its response is returned; it is stored
    unless it is a partial response (status 206): the cache refuses that
    one, nothing is stored, and the refusal is left as an unhandled
    rejection.  When the fetch fails the call still fulfils, with the
    synthetic [Offline] response of status 503.  The call never
    rejects. *)
Theorem cache_first_behaviour (net : Network) (request : Request)
  (cacheName : string) (w : World) :
  let out := cacheFirstStrategy net request cacheName w in
  let u := url request in
  (forall cached, stored w cacheName u = Some cached ->
     out.1 = Fulfilled cached
     /\ clock out.2 = clock w
     /\ fetched out.2 = (fetched w ++ [u])%list
     /\ unhandled out.2 = unhandled w
     /\ (forall r, settled (net u) = Resolves r -> status r = 200%Z ->
           stored out.2 cacheName u = Some r)
     /\ (forall r, settled (net u) = Resolves r -> status r <> 200%Z ->
           caches out.2 = caches w)
     /\ (forall e, settled (net u) = Rejects e -> caches out.2 = caches w))
  /\ (stored w cacheName u = None ->
      fetched out.2 = (fetched w ++ [u])%list
      /\ (forall r, resolves_within net u DEFAULT_TIMEOUT r ->
            out.1 = Fulfilled r
            /\ clock out.2 = clock w + latency (net u)
            /\ (status r <> 206%Z ->
                  stored out.2 cacheName u = Some r
                  /\ unhandled out.2 = unhandled w)
            /\ (status r = 206%Z ->
                  stored out.2 cacheName u = None
                  /\ unhandled out.2
                     = (unhandled w ++ [PARTIAL_RESPONSE])%list))
      /\ (fails_within net u DEFAULT_TIMEOUT ->
            out.1 = Fulfilled (mkResponse 503 "Offline")
            /\ stored out.2 cacheName u = None
            /\ unhandled out.2 = unhandled w))
  /\ (exists r, out.1 = Fulfilled r).
Proof.
  cbv zeta. split; [|split].
  - intros cached Hhit. rewrite (cacheFirst_hit net _ _ _ _ Hhit).
    cbn [fst snd]. unfold stored.
    cbn [caches fetched clock unhandled with_caches log_fetch].
    do 4 (split; [reflexivity |]). split; [|split].
    + intros r -> H200. apply Z.eqb_eq in H200. rewrite H200.
      apply entry_put_eq. eapply entry_present. exact Hhit.
    + intros r -> H200. apply Z.eqb_neq in H200. rewrite H200. reflexivity.
    + intros e ->. reflexivity.
  - intros Hmiss.
    destruct (resolves_or_fails net (url request) DEFAULT_TIMEOUT)
      as [[r Hres] | Hfail].
    + rewrite (cacheFirst_miss_resolves net _ _ _ _ Hmiss Hres).
      cbn [fst snd]. unfold stored. autorewrite with world.
      cbn [caches fetched clock unhandled with_caches with_clock log_fetch].
      split; [reflexivity | split].
      * intros r' [Hr' _]. destruct Hres as [Hr _].
        assert (r' = r) as -> by congruence.
        split; [reflexivity | split; [reflexivity | split]].
        -- intros Hs. apply accepted_spec in Hs. rewrite Hs.
           split; [apply entry_put_eq, ensure_is_Some | reflexivity].
        -- intros Hs. apply refused_spec in Hs. rewrite Hs.
           split; [rewrite entry_ensure; exact Hmiss | reflexivity].
      * intros Hfail. destruct (resolves_not_fails net _ _ _ Hres Hfail).
    + rewrite (cacheFirst_miss_fails net _ _ _ Hmiss Hfail).
      cbn [fst snd]. unfold stored.
      cbn [caches fetched clock unhandled with_caches with_clock log_fetch].
      split; [reflexivity | split].
      * intros r Hres. destruct (resolves_not_fails net _ _ _ Hres Hfail).
      * intros _. split; [reflexivity | split; [| reflexivity]].
        rewrite entry_ensure. exact Hmiss.
  - destruct (stored w cacheName (url request)) as [cached|] eqn:Hst.
    + rewrite (cacheFirst_hit net _ _ _ _ Hst). eauto.
    + destruct (resolves_or_fails net (url request) DEFAULT_TIMEOUT)
        as [[r Hres] | Hfail].
      * rewrite (cacheFirst_miss_resolves net _ _ _ _ Hst Hres). eauto.
      * rewrite (cacheFirst_miss_fails net _ _ _ Hst Hfail). eauto.
Qed.

Lemma cache_first_behaviour_witness :
  let request := request_of "example.com" "/index.html" "document" in
  (cacheFirstStrategy online request CRITICAL_CACHE
     (holding CRITICAL_CACHE (url request) older)).1 = Fulfilled older
  /\ stored
       (cacheFirstStrategy online request CRITICAL_CACHE
          (holding CRITICAL_CACHE (url request) older)).2
       CRITICAL_CACHE (url request) = Some page
  /\ stored (cacheFirstStrategy missing request CRITICAL_CACHE fresh).2
       CRITICAL_CACHE (url request) = Some not_found
  /\ (cacheFirstStrategy offline request CRITICAL_CACHE fresh).1
     = Fulfilled (mkResponse 503 "Offline").
Proof.
  intros request.
  destruct (cache_first_behaviour online request CRITICAL_CACHE
              (holding CRITICAL_CACHE (url request) older))
    as [Hhit _].
  destruct (Hhit older) as [Hret [_ [_ [_ [Hstore _]]]]];
    [vm_compute; reflexivity |].
  destruct (cache_first_behaviour missing request CRITICAL_CACHE fresh)
    as [_ [Hmiss404 _]].
  destruct Hmiss404 as [_ [Hnet _]]; [vm_compute; reflexivity |].
  destruct (Hnet not_found) as [_ [_ [Hkept _]]];
    [split; [reflexivity | vm_compute; discriminate] |].
  destruct Hkept as [Hstored404 _]; [vm_compute; discriminate |].
  destruct (cache_first_behaviour offline request CRITICAL_CACHE fresh)
    as [_ [Hmiss _]].
  destruct Hmiss as [_ [_ Hoff]]; [vm_compute; reflexivity |].
  destruct Hoff as [Hoffline _].
  { right. exists "TypeError: Failed to fetch". reflexivity. }
  split; [exact Hret | split; [| split; [exact Hstored404 | exact Hoffline]]].
  apply (Hstore page); reflexivity.
Defined.

(** C4 (counterexample): a critical page that is not in the partition and
    that the network answers with a partial response is returned but not
    stored; the refusal of the cache is left unhandled. *)
Lemma cache_first_drops_partial_response :
  let request := request_of "example.com" "/index.html" "document" in
  let out := cacheFirstStrategy serving_partial request CRITICAL_CACHE fresh in
  stored fresh CRITICAL_CACHE (url request) = None
  /\ settled (serving_partial (url request)) = Resolves partial_content
  /\ out.1 = Fulfilled partial_content
  /\ stored out.2 CRITICAL_CACHE (url request) = None
  /\ unhandled out.2 = [PARTIAL_RESPONSE].
Proof.
  cbv zeta.
  split; [| split; [| split; [| split]]]; vm_compute; reflexivity.
Qed.

(** C3 (as amended): stale-while-revalidate.  One timed fetch is started
    on every call; when it resolves in time its response overwrites the
    entry, unless it is a partial response (status 206): the cache refuses
    that one, the entry stays as it was and the refusal is left as an
    unhandled rejection.  When the fetch fails the entry stays as it was.
    A cached copy is returned with no time spent waiting.  Without a copy
    the call waits for the fetch and returns its response; when the fetch
    fails or times out, the call does not reject: it fulfils with no
    response ([undefined]). *)
Theorem stale_while_revalidate_behaviour (net : Network) (request : Request)
  (cacheName : string) (w : World) :
  let out := staleWhileRevalidateStrategy net request cacheName w in
  let u := url request in
  fetched out.2 = (fetched w ++ [u])%list
  /\ (forall r, resolves_within net u DEFAULT_TIMEOUT r ->
        (status r <> 206%Z ->
           stored out.2 cacheName u = Some r
           /\ unhandled out.2 = unhandled w)
        /\ (status r = 206%Z ->
              stored out.2 cacheName u = stored w cacheName u
              /\ unhandled out.2
                 = (unhandled w ++ [PARTIAL_RESPONSE])%list))
  /\ (fails_within net u DEFAULT_TIMEOUT ->
        stored out.2 cacheName u = stored w cacheName u
        /\ unhandled out.2 = unhandled w)
  /\ (forall cached, stored w cacheName u = Some cached ->
        out.1 = Fulfilled (Some cached) /\ clock out.2 = clock w)
  /\ (stored w cacheName u = None ->
        (forall r, resolves_within net u DEFAULT_TIMEOUT r ->
           out.1 = Fulfilled (Some r)
           /\ clock out.2 = clock w + latency (net u))
        /\ (fails_within net u DEFAULT_TIMEOUT ->
              out.1 = Fulfilled None
              /\ clock out.2
                 = clock w + N.min (latency (net u)) DEFAULT_TIMEOUT)).
Proof.
  cbv zeta.
  destruct (resolves_or_fails net (url request) DEFAULT_TIMEOUT)
    as [[r Hres] | Hfail].
  - rewrite (staleWhileRevalidate_resolves net _ _ _ _ Hres).
    cbn [fst snd]. unfold stored. autorewrite with world.
    cbn [caches fetched clock unhandled with_caches with_clock log_fetch].
    split; [reflexivity |].
    split; [| split; [| split]].
    + intros r' [Hr' _]. destruct Hres as [Hr _].
      assert (r' = r) as -> by congruence. split.
      * intros Hs. apply accepted_spec in Hs. rewrite Hs.
        split; [apply entry_put_eq, ensure_is_Some | reflexivity].
      * intros Hs. apply refused_spec in Hs. rewrite Hs.
        split; [apply entry_ensure | reflexivity].
    + intros Hfail. destruct (resolves_not_fails net _ _ _ Hres Hfail).
    + intros cached ->. split; reflexivity.
    + intros ->. split.
      * intros r' [Hr' _]. destruct Hres as [Hr _].
        assert (r' = r) as -> by congruence. split; reflexivity.
      * intros Hfail. destruct (resolves_not_fails net _ _ _ Hres Hfail).
  - rewrite (staleWhileRevalidate_fails net _ _ _ Hfail).
    cbn [fst snd]. unfold stored.
    cbn [caches fetched clock unhandled with_caches with_clock log_fetch].
    split; [reflexivity |].
    split; [| split; [| split]].
    + intros r Hres. destruct (resolves_not_fails net _ _ _ Hres Hfail).
    + intros _. split; [apply entry_ensure | reflexivity].
    + intros cached ->. split; reflexivity.
    + intros ->. split.
      * intros r Hres. destruct (resolves_not_fails net _ _ _ Hres Hfail).
      * intros _. split; reflexivity.
Qed.

Lemma stale_while_revalidate_behaviour_witness :
  let request := request_of "example.com" "/css/site.css" "style" in
  (staleWhileRevalidateStrategy online request STATIC_CACHE
     (holding STATIC_CACHE (url request) older)).1
  = Fulfilled (Some older)
  /\ (staleWhileRevalidateStrategy online request STATIC_CACHE fresh).1
     = Fulfilled (Some page)
  /\ stored (staleWhileRevalidateStrategy online request STATIC_CACHE fresh).2
       STATIC_CACHE (url request) = Some page
  /\ unhandled
       (staleWhileRevalidateStrategy serving_partial request STATIC_CACHE
          fresh).2
     = [PARTIAL_RESPONSE]
  /\ (staleWhileRevalidateStrategy offline request STATIC_CACHE fresh).1
     = Fulfilled None.
Proof.
  intros request.
  destruct (stale_while_revalidate_behaviour online request STATIC_CACHE
              (holding STATIC_CACHE (url request) older))
    as [_ [_ [_ [Hhit _]]]].
  destruct (Hhit older) as [Hret _]; [vm_compute; reflexivity |].
  destruct (stale_while_revalidate_behaviour online request STATIC_CACHE
              fresh) as [_ [Hwrite [_ [_ Hmiss]]]].
  destruct Hmiss as [Hnet _]; [vm_compute; reflexivity |].
  destruct (Hnet page) as [Hpage _];
    [split; [reflexivity | vm_compute; discriminate] |].
  destruct (Hwrite page) as [Hkept _];
    [split; [reflexivity | vm_compute; discriminate] |].
  destruct Hkept as [Hstored _]; [vm_compute; discriminate |].
  destruct (stale_while_revalidate_behaviour serving_partial request
              STATIC_CACHE fresh) as [_ [Hpartial _]].
  destruct (Hpartial partial_content) as [_ Hrefused];
    [split; [reflexivity | vm_compute; discriminate] |].
  destruct Hrefused as [_ Hlogged]; [reflexivity |].
  destruct (stale_while_revalidate_behaviour offline request STATIC_CACHE
              fresh) as [_ [_ [_ [_ Hmiss']]]].
  destruct Hmiss' as [_ Hoff]; [vm_compute; reflexivity |].
  destruct Hoff as [Hnone _].
  { right. exists "TypeError: Failed to fetch". reflexivity. }
  split; [exact Hret | split; [exact Hpage | split; [exact Hstored |]]].
  split; [exact Hlogged | exact Hnone].
Defined.

(** C3 (counterexample): with no copy in the partition and the network
    down, stale-while-revalidate does not surface the failure of the
    fetch: its promise fulfils, with [undefined]; and a fetch that succeeds
    with a partial response does not overwrite the partition. *)
Lemma stale_while_revalidate_swallows_failure :
  let request := request_of "example.com" "/css/site.css" "style" in
  (stored fresh STATIC_CACHE (url request) = None
   /\ settled (offline (url request)) = Rejects "TypeError: Failed to fetch"
   /\ (staleWhileRevalidateStrategy offline request STATIC_CACHE fresh).1
      = Fulfilled None
   /\ (staleWhileRevalidateStrategy offline request STATIC_CACHE fresh).1
      <> Rejected "TypeError: Failed to fetch")
  /\ (settled (serving_partial (url request)) = Resolves partial_content
      /\ (staleWhileRevalidateStrategy serving_partial request STATIC_CACHE
            fresh).1 = Fulfilled (Some partial_content)
      /\ stored
           (staleWhileRevalidateStrategy serving_partial request STATIC_CACHE
              fresh).2 STATIC_CACHE (url request) = None).
Proof.
  cbv zeta. split; [split; [| split; [| split]] | split; [| split]];
    try (vm_compute; reflexivity).
  vm_compute. discriminate.
Qed.

(** C5: network-first.  One timed fetch is made.  When it resolves in
    time the response is returned, and stored when its status is 200.
    When it fails or times out the cached copy is returned if there is
    one; otherwise the call rejects with the error of the fetch itself
    (the network's error, or the timeout), and no response is made up. *)
Theorem network_first_behaviour (net : Network) (request : Request)
  (cacheName : string) (w : World) :
  let out := networkFirstStrategy net request cacheName w in
  let u := url request in
  fetched out.2 = (fetched w ++ [u])%list
  /\ (forall r, resolves_within net u NETWORK_TIMEOUT r ->
        out.1 = Fulfilled r
        /\ (status r = 200%Z -> stored out.2 cacheName u = Some r)
        /\ (status r <> 200%Z -> caches out.2 = caches w))
  /\ (fails_within net u NETWORK_TIMEOUT ->
        stored out.2 cacheName u = stored w cacheName u
        /\ (forall cached, stored w cacheName u = Some cached ->
              out.1 = Fulfilled cached)
        /\ (stored w cacheName u = None ->
              (forall e, settled (net u) = Rejects e ->
                 latency (net u) <= NETWORK_TIMEOUT ->
                 out.1 = Rejected e)
              /\ (NETWORK_TIMEOUT < latency (net u) ->
                    out.1 = Rejected "Network timeout"))).
Proof.
  cbv zeta.
  destruct (resolves_or_fails net (url request) NETWORK_TIMEOUT)
    as [[r Hres] | Hfail].
  - rewrite (networkFirst_resolves net _ _ _ _ Hres).
    cbn [fst snd]. unfold stored at 1.
    cbn [caches fetched clock unhandled with_caches with_clock log_fetch].
    split; [reflexivity | split].
    + intros r' [Hr' _]. destruct Hres as [Hr _].
      assert (r' = r) as -> by congruence.
      split; [reflexivity | split].
      * intros H200. apply Z.eqb_eq in H200. rewrite H200.
        apply entry_put_eq, ensure_is_Some.
      * intros H200. apply Z.eqb_neq in H200. rewrite H200. reflexivity.
    + intros Hfail. destruct (resolves_not_fails net _ _ _ Hres Hfail).
  - destruct (networkFirst_fails net request cacheName w Hfail)
      as [e [Hfetch ->]].
    cbn [fst snd]. unfold stored at 1.
    cbn [caches fetched clock unhandled with_caches with_clock log_fetch].
    split; [reflexivity | split].
    + intros r Hres. destruct (resolves_not_fails net _ _ _ Hres Hfail).
    + intros _. split; [apply entry_ensure | split].
      * intros cached ->. reflexivity.
      * intros ->. rewrite fetchWithTimeout_run in Hfetch by reflexivity.
        split.
        -- intros e' He' Hlat.
           destruct (N.ltb_spec NETWORK_TIMEOUT (latency (net (url request))));
             [lia |].
           rewrite He' in Hfetch. cbn [fst] in Hfetch. congruence.
        -- intros Hlat.
           destruct (N.ltb_spec NETWORK_TIMEOUT (latency (net (url request))));
             [| lia].
           cbn [fst] in Hfetch. congruence.
Qed.

Lemma network_first_behaviour_witness :
  let request := request_of "example.com" "/api/quote" "" in
  (networkFirstStrategy online request DYNAMIC_CACHE fresh).1
  = Fulfilled page
  /\ (networkFirstStrategy offline request DYNAMIC_CACHE
        (holding DYNAMIC_CACHE (url request) older)).1 = Fulfilled older
  /\ (networkFirstStrategy offline request DYNAMIC_CACHE fresh).1
     = Rejected "TypeError: Failed to fetch".
Proof.
  intros request.
  destruct (network_first_behaviour online request DYNAMIC_CACHE fresh)
    as [_ [Hres _]].
  destruct (Hres page) as [Hpage _];
    [split; [reflexivity | vm_compute; discriminate] |].
  assert (Hdown : fails_within offline (url request) NETWORK_TIMEOUT).
  { right. exists "TypeError: Failed to fetch". reflexivity. }
  destruct (network_first_behaviour offline request DYNAMIC_CACHE
              (holding DYNAMIC_CACHE (url request) older))
    as [_ [_ Hfail]].
  destruct (Hfail Hdown) as [_ [Hcached _]].
  destruct (network_first_behaviour offline request DYNAMIC_CACHE fresh)
    as [_ [_ Hfail']].
  destruct (Hfail' Hdown) as [_ [_ Hnone]].
  destruct Hnone as [Hthrow _]; [vm_compute; reflexivity |].
  split; [exact Hpage | split].
  - apply Hcached. vm_compute. reflexivity.
  - apply Hthrow; [reflexivity | vm_compute; discriminate].
Defined.




End StrategyClaims.

(** ** What the listeners leave behind *)

Section ListenerClaims.
Import JsString Platform ServiceWorker Effects Examples.

Lemma static_ne_critical : STATIC_CACHE <> CRITICAL_CACHE.
Proof. intros H. vm_compute in H. discriminate H. Qed.

Lemma critical_tagged : tagged CRITICAL_CACHE = true.
Proof. vm_compute. reflexivity. Qed.

(** The tag test is containment of the version string. *)
Lemma tagged_spec name :
  tagged name = true <->
  exists p q, name = String.append p (String.append CACHE_VERSION q).
Proof. apply includes_spec. Qed.

Lemma written_lookup_ne net cache urls
  (c : gmap string (gmap string Response)) name :
  cache <> name -> written net cache urls c !! name = c !! name.
Proof.
  intros Hne. revert c. induction urls as [|u urls IH]; intros c.
  - reflexivity.
  - rewrite written_cons, IH, written_one.
    destruct (arriving net u); [|reflexivity].
    apply lookup_alter_ne. exact Hne.
Qed.

(** What a best-effort batch over the URL strings [urls] leaves in
    partition [cache], once the partition is open. *)
Lemma batch_entries net cache urls
  (c : gmap string (gmap string Response)) (rs : string -> string) :
  is_Some (c !! cache) ->
  (forall u r, In u urls -> settled (net (rs u)) = Resolves r ->
     status r <> 206%Z ->
     entry (written net cache (map rs urls) c) cache (rs u) = Some r)
  /\ (forall key, fails_or_refused net key ->
        entry (written net cache (map rs urls) c) cache key
        = entry c cache key).
Proof.
  intros Hc. split.
  - intros u r Hin Hr Hs.
    apply entry_written_resolved;
      [exact Hc | apply in_map; exact Hin | apply arriving_resolved; assumption].
  - intros key Hkey. apply entry_written_other. right. right.
    apply arriving_None. exact Hkey.
Qed.




(** C2 (as amended): activation always completes; it deletes every
    partition whose name does not contain the version string and keeps
    every partition whose name contains it; afterwards the partitions are
    those kept and the critical partition of the current version, which
    the warm-up opens.  Partitions other than the critical one keep their
    content. *)
Theorem activate_prunes (net : Network) (w : World) (name : string) :
  let out := on_activate net w in
  out.1 = Fulfilled tt
  /\ (tagged name = false -> caches out.2 !! name = None)
  /\ (is_Some (caches out.2 !! name) <->
      (tagged name = true /\ is_Some (caches w !! name))
      \/ name = CRITICAL_CACHE)
  /\ (tagged name = true -> name <> CRITICAL_CACHE ->
      caches out.2 !! name = caches w !! name).
Proof.
  cbv zeta. rewrite on_activate_run. cbn [fst snd caches].
  split; [reflexivity |].
  assert (Hother : name <> CRITICAL_CACHE ->
            written net CRITICAL_CACHE (map (resolve w) criticalPages)
              (ensure CRITICAL_CACHE (pruned (caches w))) !! name
            = if tagged name then caches w !! name else None).
  { intros Hne.
    rewrite written_lookup_ne by (intros H; apply Hne; symmetry; exact H).
    rewrite ensure_lookup_ne by (intros H; apply Hne; symmetry; exact H).
    apply pruned_lookup. }
  split; [| split].
  - intros Hno. rewrite Hother.
    + rewrite Hno. reflexivity.
    + intros ->. rewrite critical_tagged in Hno. discriminate.
  - destruct (decide (name = CRITICAL_CACHE)) as [->|Hne].
    + split; [intros _; right; reflexivity |].
      intros _. apply written_is_Some, ensure_is_Some.
    + rewrite (Hother Hne). destruct (tagged name); split.
      * intros H. left. split; [reflexivity | exact H].
      * intros [[_ H] | H]; [exact H | contradiction].
      * intros [x Hx]. discriminate.
      * intros [[H _] | H]; [discriminate | contradiction].
  - intros Hyes Hne. rewrite (Hother Hne), Hyes. reflexivity.
Qed.

Lemma activate_prunes_witness :
  let key := "https://example.com/x" in
  caches (on_activate offline (holding "static-v0.9" key older)).2
    !! "static-v0.9" = None
  /\ is_Some
       (caches (on_activate offline (holding STATIC_CACHE key older)).2
          !! STATIC_CACHE)
  /\ caches (on_activate offline (holding STATIC_CACHE key older)).2
       !! STATIC_CACHE
     = caches (holding STATIC_CACHE key older) !! STATIC_CACHE.
Proof.
  intros key.
  destruct (activate_prunes offline (holding "static-v0.9" key older)
              "static-v0.9") as [_ [Hgone _]].
  destruct (activate_prunes offline (holding STATIC_CACHE key older)
              STATIC_CACHE) as [_ [_ [Hkept Hsame]]].
  split; [apply Hgone; vm_compute; reflexivity | split].
  - apply Hkept. left. split; [vm_compute; reflexivity |].
    exists {[ key := older ]}. vm_compute. reflexivity.
  - apply Hsame; [vm_compute; reflexivity | exact static_ne_critical].
Defined.

(** C2 (counterexample): after a first install and activation the
    dynamic partition does not exist, so the partitions are not the three
    of the current version; and a partition of another version whose tag
    contains the current one survives activation and can still be
    read. *)
Lemma activation_leaves_other_partitions :
  let key := "https://example.com/x" in
  caches (on_activate online (on_install online fresh).2).2 !! DYNAMIC_CACHE
  = None
  /\ tagged "static-v1.2024-rc1" = true
  /\ stored (on_activate online (holding "static-v1.2024-rc1" key older)).2
       "static-v1.2024-rc1" key = Some older.
Proof. cbv zeta. split; [| split]; vm_compute; reflexivity. Qed.

(** Serving a request never touches the waiting state. *)
Lemma handleRequest_keeps_waiting net host request w :
  skipWaitingCalls (handleRequest net host request w).2
  = skipWaitingCalls w.
Proof.
  rewrite handleRequest_dispatch.
  destruct (classify host request); cbn [dispatch]; unfold respond, bind, ret.
  - destruct (stored w CRITICAL_CACHE (url request)) as [cached|] eqn:Hst.
    + rewrite (cacheFirst_hit net _ _ _ _ Hst). reflexivity.
    + destruct (resolves_or_fails net (url request) DEFAULT_TIMEOUT)
        as [[r Hres] | Hfail].
      * rewrite (cacheFirst_miss_resolves net _ _ _ _ Hst Hres).
        cbn [snd]. rewrite skipWaitingCalls_put_dropped. reflexivity.
      * rewrite (cacheFirst_miss_fails net _ _ _ Hst Hfail). reflexivity.
  - destruct (resolves_or_fails net (url request) DEFAULT_TIMEOUT)
      as [[r Hres] | Hfail].
    + rewrite (staleWhileRevalidate_resolves net _ _ _ _ Hres).
      cbn [snd]. rewrite skipWaitingCalls_put_dropped. reflexivity.
    + rewrite (staleWhileRevalidate_fails net _ _ _ Hfail). reflexivity.
  - destruct (resolves_or_fails net (url request) NETWORK_TIMEOUT)
      as [[r Hres] | Hfail].
    + rewrite (networkFirst_resolves net _ _ _ _ Hres). reflexivity.
    + destruct (networkFirst_fails net request DYNAMIC_CACHE w Hfail)
        as [e [_ ->]].
      destruct (stored w DYNAMIC_CACHE (url request)); reflexivity.
  - destruct (resolves_or_fails net (url request) NETWORK_TIMEOUT)
      as [[r Hres] | Hfail].
    + rewrite (networkFirst_resolves net _ _ _ _ Hres). reflexivity.
    + destruct (networkFirst_fails net request DYNAMIC_CACHE w Hfail)
        as [e [_ ->]].
      destruct (stored w DYNAMIC_CACHE (url request)); reflexivity.
Qed.

(** C7 (as amended): the install step performs the skip-waiting
    transition itself, once, whether or not the precache succeeds; a
    [SKIP_WAITING] message performs it again on receipt; the other
    messages, well formed or not, activation and the handling of requests
    never do. *)
Theorem skip_waiting_sites (net : Network) (host : string) (w : World) :
  skipWaitingCalls (on_install net w).2 = S (skipWaitingCalls w)
  /\ skipWaitingCalls (on_message net SKIP_WAITING w).2
     = S (skipWaitingCalls w)
  /\ (forall u,
        skipWaitingCalls (on_message net (CACHE_PAGE u) w).2
        = skipWaitingCalls w)
  /\ (forall routes,
        skipWaitingCalls (on_message net (PREFETCH_ROUTES routes) w).2
        = skipWaitingCalls w)
  /\ skipWaitingCalls (on_message net PREFETCH_ROUTES_no_array w).2
     = skipWaitingCalls w
  /\ (forall type,
        skipWaitingCalls (on_message net (OtherType type) w).2
        = skipWaitingCalls w)
  /\ skipWaitingCalls (on_activate net w).2 = skipWaitingCalls w
  /\ (forall request,
        skipWaitingCalls (handleRequest net host request w).2
        = skipWaitingCalls w).
Proof.
  split; [| split; [| split; [| split; [| split; [| split; [| split]]]]]].
  - destruct (forallb (resolves_ok net) (map (resolve w) PRECACHE_URLS))
      eqn:Hall.
    + destruct (on_install_ok net w Hall) as [t ->]. reflexivity.
    + destruct (on_install_fail net w Hall) as [e [t ->]]. reflexivity.
  - reflexivity.
  - intros u. rewrite on_message_cache_page. reflexivity.
  - intros routes. rewrite on_message_prefetch. reflexivity.
  - reflexivity.
  - reflexivity.
  - rewrite on_activate_run. reflexivity.
  - intros request. apply handleRequest_keeps_waiting.
Qed.

(** C7 (counterexample): a first install, with no message received, has
    already called [skipWaiting]. *)
Lemma install_skips_waiting :
  skipWaitingCalls fresh = 0%nat
  /\ skipWaitingCalls (on_install online fresh).2 = 1%nat.
Proof. split; vm_compute; reflexivity. Qed.

End ListenerClaims.

(** ** Prefetch hints of the client controller *)

Section Prefetch.
Import Optimizer.
Variable origin_of : string -> option string.
Variable location_origin : string.

Local Abbreviation isInternal := (isInternalLink origin_of location_origin).
Local Abbreviation prefetch := (prefetchResource origin_of location_origin).
Local Abbreviation follows' := (follows origin_of location_origin).

Lemma hints_for_app h l l' :
  hints_for h (l ++ l') = (hints_for h l + hints_for h l')%nat.
Proof. unfold hints_for. rewrite List.filter_app, length_app. reflexivity. Qed.

Lemma hints_for_one h k :
  hints_for h [mkLink "prefetch" k] = if String.eqb k h then 1%nat else 0%nat.
Proof.
  unfold hints_for. cbn [List.filter rel href].
  change (String.eqb "prefetch" "prefetch") with true. cbn [andb].
  destruct (String.eqb k h); reflexivity.
Qed.

Lemma follows_refl h p : follows' h p p.
Proof. unfold follows. repeat split; lia. Qed.

Lemma follows_trans h p q r :
  follows' h p q -> follows' h q r -> follows' h p r.
Proof.
  unfold follows. intros [H1 [H2 H3]] [H4 [H5 H6]].
  split; [lia | split; [lia |]].
  intros Hext. rewrite H6, H3 by exact Hext. reflexivity.
Qed.

(** One call of [prefetchResource]. *)
Lemma prefetchResource_follows h k p : follows' h p (prefetch k p).
Proof.
  unfold prefetchResource.
  destruct (bool_decide (k ∈ resourceHints p)) eqn:Hseen; cbn [negb andb];
    [apply follows_refl |].
  destruct (isInternal k) eqn:Hint; [| apply follows_refl].
  apply bool_decide_eq_false in Hseen.
  unfold follows. cbn [head resourceHints].
  rewrite hints_for_app, hints_for_one.
  destruct (String.eqb_spec k h) as [->|Hne].
  - rewrite (bool_decide_eq_true_2 (h ∈ {[h]} ∪ resourceHints p))
      by set_solver.
    rewrite (bool_decide_eq_false_2 (h ∈ resourceHints p)) by exact Hseen.
    split; [lia | split; [lia |]]. congruence.
  - assert (Hiff : h ∈ {[k]} ∪ resourceHints p <-> h ∈ resourceHints p).
    { rewrite elem_of_union, elem_of_singleton.
      split; [intros [Heq|Hin]; [congruence | exact Hin] | auto]. }
    rewrite (bool_decide_ext _ _ Hiff).
    split; [lia | split; [lia |]]. intros _. lia.
Qed.

Lemma prefetchEach_follows h links p :
  follows' h p (prefetchEach origin_of location_origin links p).
Proof.
  unfold prefetchEach. revert p.
  induction links as [|k links IH]; intros p; cbn [fold_left].
  - apply follows_refl.
  - eapply follows_trans; [apply prefetchResource_follows | apply IH].
Qed.

Lemma fire_follows h t p : follows' h p (fire origin_of location_origin t p).
Proof.
  destruct t as [k | links | visible]; cbn [fire].
  - unfold on_mouseover. destruct (isInternal k).
    + apply prefetchResource_follows.
    + apply follows_refl.
  - apply prefetchEach_follows.
  - apply prefetchEach_follows.
Qed.

Lemma run_follows h ts p : follows' h p (run origin_of location_origin ts p).
Proof.
  unfold run. revert p.
  induction ts as [|t ts IH]; intros p; cbn [fold_left].
  - apply follows_refl.
  - eapply follows_trans; [apply fire_follows | apply IH].
Qed.

(** C8: whatever the triggers that fire and however often, the head gets
    at most one more prefetch hint for a URL, none once the URL is in the
    set of requested hints, and none for a URL that is not an internal
    link; the first hover over an internal link not yet requested adds
    its hint. *)
Theorem hover_prefetch_once (ts : list Trigger) (p : Page) (h : string) :
  (hints_for h (head (run origin_of location_origin ts p))
   <= hints_for h (head p) + 1)%nat
  /\ (h ∈ resourceHints p ->
      hints_for h (head (run origin_of location_origin ts p))
      = hints_for h (head p))
  /\ (isInternal h = false ->
      hints_for h (head (run origin_of location_origin ts p))
      = hints_for h (head p))
  /\ (isInternal h = true -> h ∉ resourceHints p ->
      hints_for h
        (head (run origin_of location_origin (Mouseover h :: ts) p))
      = (hints_for h (head p) + 1)%nat).
Proof.
  destruct (run_follows h ts p) as [Hmono [Hbudget Hext]].
  split; [| split; [| split]].
  - destruct (bool_decide (h ∈ resourceHints p));
      destruct (bool_decide (h ∈ resourceHints _)); lia.
  - intros Hseen. rewrite (bool_decide_eq_true_2 _ Hseen) in Hbudget.
    destruct (bool_decide (h ∈ resourceHints _)); lia.
  - exact Hext.
  - intros Hint Hnew. unfold run. cbn [fold_left fire].
    unfold on_mouseover, prefetchResource. rewrite Hint.
    rewrite (bool_decide_eq_false_2 _ Hnew). cbn [negb andb].
    destruct (run_follows h ts
                (mkPage ({[h]} ∪ resourceHints p)
                        (head p ++ [mkLink "prefetch" h])))
      as [Hmono' [Hbudget' _]].
    unfold run in Hmono', Hbudget'. cbn [head resourceHints] in *.
    rewrite (bool_decide_eq_true_2 (h ∈ {[h]} ∪ resourceHints p))
      in Hbudget' by set_solver.
    rewrite hints_for_app, hints_for_one, String.eqb_refl in *.
    destruct (bool_decide (h ∈ resourceHints _)); lia.
Qed.

End Prefetch.

Section PrefetchExample.
Import Optimizer.

Lemma hover_prefetch_once_witness :
  hints_for "https://example.com/about/index.html"
    (head
       (run example_origin "https://example.com"
          [Mouseover "https://example.com/about/index.html";
           Mouseover "https://example.com/about/index.html";
           Scroll ["https://example.com/about/index.html"]]
          blank))
  = 1%nat
  /\ hints_for "https://elsewhere.net/page"
       (head
          (run example_origin "https://example.com"
             [Mouseover "https://elsewhere.net/page";
              Intersecting ["https://elsewhere.net/page"]]
             blank))
     = 0%nat.
Proof.
  destruct (hover_prefetch_once example_origin "https://example.com"
              [Mouseover "https://example.com/about/index.html";
               Scroll ["https://example.com/about/index.html"]]
              blank "https://example.com/about/index.html")
    as [_ [_ [_ Hfirst]]].
  destruct (hover_prefetch_once example_origin "https://example.com"
              [Mouseover "https://elsewhere.net/page";
               Intersecting ["https://elsewhere.net/page"]]
              blank "https://elsewhere.net/page")
    as [_ [_ [Hext _]]].
  split.
  - apply Hfirst; [vm_compute; reflexivity |]. apply not_elem_of_empty.
  - apply Hext. vm_compute. reflexivity.
Defined.

End PrefetchExample.

(** ** Further properties of the worker *)

Section WorkerCoverage.
Import JsString Platform ServiceWorker Effects Examples Invariant.
Implicit Types c : gmap string (gmap string Response).

Lemma respond_run (m : Task Response) w :
  respond m w =
  (match (m w).1 with
   | Fulfilled r => Fulfilled (Some r)
   | Rejected e => Rejected e
   end, (m w).2).
Proof.
  unfold respond, bind, ret. destruct (m w) as [[r|e] w']; reflexivity.
Qed.

(** X1: the timed fetch issues one request, touches neither cache storage
    nor the unhandled rejections, and settles as the network does unless
    the timer comes first, in which case it rejects with the timeout
    error.  The timer waits for the delay [setTimeout] makes of the
    timeout: the timeout itself when that is below 2^31 ms, as the two
    timeouts of the worker are, and no time at all from there up to 2^32
    ms.  The caller is never kept longer than the timeout. *)
Theorem timed_fetch_bounded (net : Network) (request : Request) (t : N)
  (w : World) :
  let out := fetchWithTimeout net request t w in
  let u := url request in
  let d := timer_delay t in
  fetched out.2 = (fetched w ++ [u])%list
  /\ caches out.2 = caches w
  /\ unhandled out.2 = unhandled w
  /\ clock out.2 = clock w + N.min (latency (net u)) d
  /\ clock out.2 <= clock w + t
  /\ (d < latency (net u) -> out.1 = Rejected "Network timeout")
  /\ (latency (net u) <= d ->
      out.1 = match settled (net u) with
              | Resolves r => Fulfilled r
              | Rejects e => Rejected e
              end)
  /\ (t < 2147483648 -> d = t)
  /\ (2147483648 <= t < 4294967296 -> d = 0)
  /\ timer_delay DEFAULT_TIMEOUT = DEFAULT_TIMEOUT
  /\ timer_delay NETWORK_TIMEOUT = NETWORK_TIMEOUT.
Proof.
  cbv zeta. rewrite fetchWithTimeout_race.
  pose proof (timer_delay_le t) as [Hle _].
  assert (Hrest :
    (t < 2147483648 -> timer_delay t = t)
    /\ (2147483648 <= t < 4294967296 -> timer_delay t = 0)
    /\ timer_delay DEFAULT_TIMEOUT = DEFAULT_TIMEOUT
    /\ timer_delay NETWORK_TIMEOUT = NETWORK_TIMEOUT).
  { split; [apply timer_delay_small | split; [| split; reflexivity]].
    intros [Hlo Hhi]. unfold timer_delay. cbv zeta.
    rewrite N.mod_small by exact Hhi.
    destruct (N.ltb_spec t 2147483648); [lia | reflexivity]. }
  destruct (N.ltb_spec (timer_delay t) (latency (net (url request))))
    as [Hlt|Hge];
    cbn [fst snd caches fetched clock unhandled with_clock log_fetch];
    (split; [reflexivity | split; [reflexivity | split; [reflexivity |]]]);
    (split; [lia | split; [lia | split; [| split; [| exact Hrest]]]]);
    intros H; try reflexivity; lia.
Qed.

Lemma timed_fetch_bounded_witness :
  (fetchWithTimeout (fun _ => mkReply 9000 (Resolves page))
     (request_of "example.com" "/api" "") 3000 fresh).1
  = Rejected "Network timeout"
  /\ (fetchWithTimeout online (request_of "example.com" "/api" "") 3000
        fresh).1 = Fulfilled page
  /\ (fetchWithTimeout online (request_of "example.com" "/api" "")
        2147483648 fresh).1 = Rejected "Network timeout".
Proof.
  destruct (timed_fetch_bounded (fun _ => mkReply 9000 (Resolves page))
              (request_of "example.com" "/api" "") 3000 fresh)
    as [_ [_ [_ [_ [_ [Hslow _]]]]]].
  destruct (timed_fetch_bounded online (request_of "example.com" "/api" "")
              3000 fresh) as [_ [_ [_ [_ [_ [_ [Hfast _]]]]]]].
  destruct (timed_fetch_bounded online (request_of "example.com" "/api" "")
              2147483648 fresh) as [_ [_ [_ [_ [_ [Hwrapped _]]]]]].
  split; [apply Hslow | split; [apply Hfast | apply Hwrapped]];
    vm_compute; [reflexivity | discriminate | reflexivity].
Defined.

(** *** One call of a strategy *)

Lemma cacheFirst_effect net request name w :
  strategy_effect net (url request) name w
    (cacheFirstStrategy net request name w).2.
Proof.
  unfold strategy_effect.
  destruct (stored w name (url request)) as [cached|] eqn:Hst.
  - rewrite (cacheFirst_hit net _ _ _ _ Hst).
    cbn [snd caches fetched unhandled skipWaitingCalls claimed resolve
         with_caches log_fetch].
    split; [reflexivity | split; [left; reflexivity |]].
    do 3 (split; [reflexivity |]).
    destruct (settled (net (url request))) as [r|e]; [| constructor].
    destruct (status r =? 200)%Z eqn:H200; [| constructor].
    rewrite <- (ensure_present (caches w) name) at 2
      by (eapply entry_present; exact Hst).
    constructor. apply accepted_200. exact H200.
  - destruct (resolves_or_fails net (url request) DEFAULT_TIMEOUT)
      as [[r Hres] | Hfail].
    + rewrite (cacheFirst_miss_resolves net _ _ _ _ Hst Hres).
      cbn [snd]. autorewrite with world.
      cbn [caches fetched unhandled skipWaitingCalls claimed resolve
           with_caches with_clock log_fetch].
      split; [reflexivity |].
      destruct (accepted r) eqn:Hacc.
      * split; [left; reflexivity |].
        do 3 (split; [reflexivity |]). constructor. exact Hacc.
      * split.
        { right. split; [reflexivity |]. exists r.
          split; [apply Hres | apply refused_spec; exact Hacc]. }
        do 3 (split; [reflexivity |]). constructor.
    + rewrite (cacheFirst_miss_fails net _ _ _ Hst Hfail).
      cbn [snd caches fetched unhandled skipWaitingCalls claimed resolve
           with_caches with_clock log_fetch].
      split; [reflexivity | split; [left; reflexivity |]].
      do 3 (split; [reflexivity |]). constructor.
Qed.

Lemma staleWhileRevalidate_effect net request name w :
  strategy_effect net (url request) name w
    (staleWhileRevalidateStrategy net request name w).2.
Proof.
  unfold strategy_effect.
  destruct (resolves_or_fails net (url request) DEFAULT_TIMEOUT)
    as [[r Hres] | Hfail].
  - rewrite (staleWhileRevalidate_resolves net _ _ _ _ Hres).
    cbn [snd]. autorewrite with world.
    cbn [caches fetched unhandled skipWaitingCalls claimed resolve
         with_caches with_clock log_fetch].
    split; [reflexivity |].
    destruct (accepted r) eqn:Hacc.
    + split; [left; reflexivity |].
      do 3 (split; [reflexivity |]). constructor. exact Hacc.
    + split.
      { right. split; [reflexivity |]. exists r.
        split; [apply Hres | apply refused_spec; exact Hacc]. }
      do 3 (split; [reflexivity |]). constructor.
  - rewrite (staleWhileRevalidate_fails net _ _ _ Hfail).
    cbn [snd caches fetched unhandled skipWaitingCalls claimed resolve
         with_caches with_clock log_fetch].
    split; [reflexivity | split; [left; reflexivity |]].
    do 3 (split; [reflexivity |]). constructor.
Qed.

Lemma networkFirst_effect net request name w :
  strategy_effect net (url request) name w
    (networkFirstStrategy net request name w).2.
Proof.
  unfold strategy_effect.
  destruct (resolves_or_fails net (url request) NETWORK_TIMEOUT)
    as [[r Hres] | Hfail].
  - rewrite (networkFirst_resolves net _ _ _ _ Hres).
    cbn [snd caches fetched unhandled skipWaitingCalls claimed resolve
         with_caches with_clock log_fetch].
    split; [reflexivity | split; [left; reflexivity |]].
    do 3 (split; [reflexivity |]).
    destruct (status r =? 200)%Z eqn:H200; constructor.
    apply accepted_200. exact H200.
  - destruct (networkFirst_fails net request name w Hfail) as [e [_ ->]].
    cbn [snd caches fetched unhandled skipWaitingCalls claimed resolve
         with_caches with_clock log_fetch].
    split; [reflexivity | split; [left; reflexivity |]].
    do 3 (split; [reflexivity |]). constructor.
Qed.

(** The partition a request is served from. *)
Lemma handleRequest_effect net host request w :
  exists name,
    In name [CRITICAL_CACHE; STATIC_CACHE; DYNAMIC_CACHE]
    /\ strategy_effect net (url request) name w
         (handleRequest net host request w).2.
Proof.
  rewrite handleRequest_dispatch.
  destruct (classify host request); cbn [dispatch];
    rewrite ?respond_run; cbn [snd].
  - exists CRITICAL_CACHE. split; [cbn; auto | apply cacheFirst_effect].
  - exists STATIC_CACHE.
    split; [cbn; auto | apply staleWhileRevalidate_effect].
  - exists DYNAMIC_CACHE. split; [cbn; auto | apply networkFirst_effect].
  - exists DYNAMIC_CACHE. split; [cbn; auto | apply networkFirst_effect].
Qed.

Lemma ensure_is_Some_mono c name other :
  is_Some (c !! other) -> is_Some (ensure name c !! other).
Proof.
  intros H. destruct (decide (name = other)) as [->|Hne].
  - apply ensure_is_Some.
  - rewrite ensure_lookup_ne by exact Hne. exact H.
Qed.

Lemma strategy_step_touches_only u name c c' :
  strategy_step u name c c' -> touches_only u c c'.
Proof.
  intros [| | r Hacc]; unfold touches_only.
  - repeat split; auto.
  - split; [| split].
    + intros cache key _. apply entry_ensure.
    + intros cache key. rewrite entry_ensure. auto.
    + intros other. apply ensure_is_Some_mono.
  - split; [| split].
    + intros cache key Hne.
      rewrite entry_put_ne by (right; congruence). apply entry_ensure.
    + intros cache key Hsome.
      destruct (decide (name = cache /\ u = key)) as [[-> ->]|Hne].
      * rewrite entry_put_eq by apply ensure_is_Some. eauto.
      * rewrite entry_put_ne, entry_ensure; [exact Hsome |].
        destruct (decide (name = cache)) as [->|]; [right | left; auto].
        intros ->. apply Hne. auto.
    + intros other H. apply put_is_Some, ensure_is_Some_mono. exact H.
Qed.



(** *** The version tag *)

Lemma partitions_tagged name :
  In name [CRITICAL_CACHE; STATIC_CACHE; DYNAMIC_CACHE] -> tagged name = true.
Proof.
  cbn. intros [<- | [<- | [<- | []]]]; vm_compute; reflexivity.
Qed.

Lemma all_tagged_ensure c name :
  tagged name = true -> all_tagged c -> all_tagged (ensure name c).
Proof.
  intros Hname Hc other Hother.
  destruct (decide (name = other)) as [<-|Hne]; [exact Hname |].
  rewrite ensure_lookup_ne in Hother by exact Hne. apply Hc. exact Hother.
Qed.

Lemma all_tagged_put c cache key r :
  all_tagged c -> all_tagged (alter (insert key r) cache c).
Proof. intros Hc name H. apply Hc. eapply put_is_Some. exact H. Qed.

Lemma all_tagged_written net cache urls c :
  all_tagged c -> all_tagged (written net cache urls c).
Proof. intros Hc name H. apply Hc. eapply written_is_Some. exact H. Qed.

Lemma all_tagged_pruned c : all_tagged (pruned c).
Proof.
  intros name [p Hp]. rewrite pruned_lookup in Hp.
  destruct (tagged name); [reflexivity | discriminate].
Qed.

Lemma strategy_step_tagged u name c c' :
  tagged name = true -> strategy_step u name c c' ->
  all_tagged c -> all_tagged c'.
Proof.
  intros Hname [| | r Hacc] Hc.
  - exact Hc.
  - apply all_tagged_ensure; assumption.
  - apply all_tagged_put, all_tagged_ensure; assumption.
Qed.

(** X3: activation leaves only partitions that carry the version tag,
    whatever was there before; and from a storage in which every partition
    carries the tag, install, activation, every message and the serving of
    every request lead to such a storage again: once a version is active,
    the worker never creates a partition outside it. *)
Theorem version_tag_invariant (net : Network) (host : string) (w : World) :
  all_tagged (caches (on_activate net w).2)
  /\ (all_tagged (caches w) ->
      all_tagged (caches (on_install net w).2)
      /\ (forall m, all_tagged (caches (on_message net m w).2))
      /\ (forall request,
            all_tagged (caches (handleRequest net host request w).2))).
Proof.
  split.
  - rewrite on_activate_run. cbn [snd caches].
    apply all_tagged_written, all_tagged_ensure;
      [apply critical_tagged | apply all_tagged_pruned].
  - intros Hw. split; [| split].
    + destruct (forallb (resolves_ok net) (map (resolve w) PRECACHE_URLS))
        eqn:Hall.
      * destruct (on_install_ok net w Hall) as [t ->]. cbn [snd caches].
        apply all_tagged_written, all_tagged_ensure;
          [vm_compute; reflexivity |].
        apply all_tagged_written, all_tagged_ensure;
          [apply critical_tagged | exact Hw].
      * destruct (on_install_fail net w Hall) as [e [t ->]].
        cbn [snd caches].
        apply all_tagged_written, all_tagged_ensure;
          [vm_compute; reflexivity |].
        apply all_tagged_ensure; [apply critical_tagged | exact Hw].
    + intros [| u | routes | | type].
      * exact Hw.
      * rewrite on_message_cache_page. cbn [snd caches].
        apply all_tagged_written, all_tagged_ensure;
          [vm_compute; reflexivity | exact Hw].
      * rewrite on_message_prefetch. cbn [snd caches].
        apply all_tagged_written, all_tagged_ensure;
          [apply critical_tagged | exact Hw].
      * rewrite on_message_no_array. cbn [snd caches].
        apply all_tagged_ensure; [apply critical_tagged | exact Hw].
      * exact Hw.
    + intros request.
      destruct (handleRequest_effect net host request w)
        as [name [Hname [_ [_ [_ [_ [_ Hstep]]]]]]].
      eapply strategy_step_tagged;
        [apply partitions_tagged; exact Hname | exact Hstep | exact Hw].
Qed.

Lemma version_tag_invariant_witness :
  all_tagged
    (caches
       (handleRequest online "example.com"
          (request_of "example.com" "/api/quote" "")
          (on_activate online
             (holding "static-v0.9" "https://example.com/x" older)).2).2).
Proof.
  destruct (version_tag_invariant online "example.com"
              (holding "static-v0.9" "https://example.com/x" older))
    as [Hact _].
  destruct (version_tag_invariant online "example.com"
              (on_activate online
                 (holding "static-v0.9" "https://example.com/x" older)).2)
    as [_ Hkeep].
  destruct (Hkeep Hact) as [_ [_ Hreq]]. apply Hreq.
Defined.

(** *** Calls in sequence *)

Lemma stored_after_swr_resolves net request name w r :
  resolves_within net (url request) DEFAULT_TIMEOUT r ->
  stored (staleWhileRevalidateStrategy net request name w).2 name
    (url request)
  = if accepted r then Some r else stored w name (url request).
Proof.
  intros Hres. rewrite (staleWhileRevalidate_resolves net _ _ _ _ Hres).
  unfold stored. cbn [snd]. autorewrite with world.
  cbn [caches with_caches with_clock log_fetch].
  destruct (accepted r).
  - apply entry_put_eq, ensure_is_Some.
  - apply entry_ensure.
Qed.

Lemma swr_hit net request name w cached :
  stored w name (url request) = Some cached ->
  (staleWhileRevalidateStrategy net request name w).1
  = Fulfilled (Some cached)
  /\ clock (staleWhileRevalidateStrategy net request name w).2 = clock w.
Proof.
  intros Hst.
  destruct (resolves_or_fails net (url request) DEFAULT_TIMEOUT)
    as [[r Hres] | Hfail].
  - rewrite (staleWhileRevalidate_resolves net _ _ _ _ Hres), Hst.
    cbn [fst snd]. rewrite clock_put_dropped. split; reflexivity.
  - rewrite (staleWhileRevalidate_fails net _ _ _ Hfail), Hst.
    split; reflexivity.
Qed.

(** X4: stale-while-revalidate is one call behind the network.  What a
    call fetched in time, and the cache took, is what the next call for
    the same request returns, at once and whatever the network answers by
    then; when the fetch of the first call failed, or was answered with a
    partial response (status 206), the next call returns the copy that was
    there before. *)
Theorem revalidation_reaches_next_call (net1 net2 : Network)
  (request : Request) (name : string) (w : World) :
  let w1 := (staleWhileRevalidateStrategy net1 request name w).2 in
  let out := staleWhileRevalidateStrategy net2 request name w1 in
  (forall r, resolves_within net1 (url request) DEFAULT_TIMEOUT r ->
     status r <> 206%Z ->
     out.1 = Fulfilled (Some r) /\ clock out.2 = clock w1)
  /\ (fails_within net1 (url request) DEFAULT_TIMEOUT
      \/ (exists r, resolves_within net1 (url request) DEFAULT_TIMEOUT r
                    /\ status r = 206%Z) ->
      forall cached, stored w name (url request) = Some cached ->
      out.1 = Fulfilled (Some cached) /\ clock out.2 = clock w1).
Proof.
  cbv zeta. split.
  - intros r Hres Hs. apply swr_hit.
    rewrite (stored_after_swr_resolves _ _ _ _ _ Hres).
    apply accepted_spec in Hs. rewrite Hs. reflexivity.
  - intros [Hfail | [r [Hres Hs]]] cached Hst; apply swr_hit.
    + rewrite (staleWhileRevalidate_fails net1 _ _ _ Hfail). unfold stored.
      cbn [snd caches with_caches with_clock log_fetch].
      rewrite entry_ensure. exact Hst.
    + rewrite (stored_after_swr_resolves _ _ _ _ _ Hres).
      apply refused_spec in Hs. rewrite Hs. exact Hst.
Qed.

Lemma revalidation_reaches_next_call_witness :
  let request := request_of "example.com" "/css/site.css" "style" in
  (staleWhileRevalidateStrategy missing request STATIC_CACHE
     (staleWhileRevalidateStrategy online request STATIC_CACHE fresh).2).1
  = Fulfilled (Some page)
  /\ (staleWhileRevalidateStrategy online request STATIC_CACHE
        (staleWhileRevalidateStrategy serving_partial request STATIC_CACHE
           (holding STATIC_CACHE (url request) older)).2).1
     = Fulfilled (Some older).
Proof.
  intros request.
  destruct (revalidation_reaches_next_call online missing request
              STATIC_CACHE fresh) as [Hnext _].
  destruct (Hnext page) as [Hret _];
    [split; [reflexivity | vm_compute; discriminate]
    | vm_compute; discriminate |].
  destruct (revalidation_reaches_next_call serving_partial online request
              STATIC_CACHE (holding STATIC_CACHE (url request) older))
    as [_ Hkept].
  destruct (Hkept
              (or_intror
                 (ex_intro _ partial_content
                    (conj (conj eq_refl
                             (ltac:(vm_compute; discriminate)
                              : latency (serving_partial (url request))
                                <= DEFAULT_TIMEOUT))
                          eq_refl)))
              older) as [Hold _]; [vm_compute; reflexivity |].
  split; [exact Hret | exact Hold].
Defined.

Lemma networkFirst_fails_result net request name w :
  fails_within net (url request) NETWORK_TIMEOUT ->
  (networkFirstStrategy net request name w).1 =
  match stored w name (url request) with
  | Some cached => Fulfilled cached
  | None =>
      if NETWORK_TIMEOUT <? latency (net (url request))
      then Rejected "Network timeout"
      else match settled (net (url request)) with
           | Resolves r => Fulfilled r
           | Rejects e => Rejected e
           end
  end.
Proof.
  intros Hfail.
  destruct (networkFirst_fails net request name w Hfail) as [e [He ->]].
  cbn [fst]. destruct (stored w name (url request)); [reflexivity |].
  rewrite fetchWithTimeout_run in He by reflexivity.
  destruct (NETWORK_TIMEOUT <? latency (net (url request)));
    cbn [fst] in He; symmetry; exact He.
Qed.

(** X5: network-first keeps for later what it fetched with status 200:
    when the network then fails or times out, the next call for the same
    request returns that response.  A response of another status is not
    kept: the next call then ends as it would have without the first. *)
Theorem network_first_offline_roundtrip (net1 net2 : Network)
  (request : Request) (name : string) (w : World) (r : Response) :
  resolves_within net1 (url request) NETWORK_TIMEOUT r ->
  fails_within net2 (url request) NETWORK_TIMEOUT ->
  let w1 := (networkFirstStrategy net1 request name w).2 in
  let out := networkFirstStrategy net2 request name w1 in
  (status r = 200%Z -> out.1 = Fulfilled r)
  /\ (status r <> 200%Z ->
      out.1 = (networkFirstStrategy net2 request name w).1).
Proof.
  intros Hres Hfail. cbv zeta.
  rewrite !(networkFirst_fails_result net2) by exact Hfail.
  rewrite (networkFirst_resolves net1 _ _ _ _ Hres). unfold stored.
  cbn [snd caches with_caches with_clock log_fetch]. split.
  - intros H200. apply Z.eqb_eq in H200. rewrite H200.
    rewrite entry_put_eq by apply ensure_is_Some. reflexivity.
  - intros H200. apply Z.eqb_neq in H200. rewrite H200. reflexivity.
Qed.

Lemma network_first_offline_roundtrip_witness :
  let request := request_of "example.com" "/api/quote" "" in
  (networkFirstStrategy offline request DYNAMIC_CACHE
     (networkFirstStrategy online request DYNAMIC_CACHE fresh).2).1
  = Fulfilled page
  /\ (networkFirstStrategy offline request DYNAMIC_CACHE
        (networkFirstStrategy missing request DYNAMIC_CACHE fresh).2).1
     = Rejected "TypeError: Failed to fetch".
Proof.
  intros request.
  assert (Hdown : fails_within offline (url request) NETWORK_TIMEOUT).
  { right. exists "TypeError: Failed to fetch". reflexivity. }
  destruct (network_first_offline_roundtrip online offline request
              DYNAMIC_CACHE fresh page) as [Hkept _];
    [split; [reflexivity | vm_compute; discriminate] | exact Hdown |].
  destruct (network_first_offline_roundtrip missing offline request
              DYNAMIC_CACHE fresh not_found) as [_ Hlost];
    [split; [reflexivity | vm_compute; discriminate] | exact Hdown |].
  split; [apply Hkept; reflexivity |].
  rewrite Hlost; [vm_compute; reflexivity | vm_compute; discriminate].
Defined.

Lemma entry_pruned c cache key :
  tagged cache = true -> entry (pruned c) cache key = entry c cache key.
Proof.
  intros Htag. unfold entry. rewrite pruned_lookup, Htag. reflexivity.
Qed.

Lemma cacheFirst_hit_result net request name w cached :
  stored w name (url request) = Some cached ->
  (cacheFirstStrategy net request name w).1 = Fulfilled cached
  /\ clock (cacheFirstStrategy net request name w).2 = clock w.
Proof.
  intros Hst. rewrite (cacheFirst_hit net _ _ _ _ Hst). split; reflexivity.
Qed.

(** The critical partition after an install that succeeded and the
    activation that follows. *)
Lemma stored_after_install_activate net1 net2 w u :
  forallb (resolves_ok net1) (map (resolve w) PRECACHE_URLS) = true ->
  stored (on_activate net2 (on_install net1 w).2).2 CRITICAL_CACHE u =
  entry
    (written net2 CRITICAL_CACHE (map (resolve w) criticalPages)
       (written net1 CRITICAL_CACHE (map (resolve w) PRECACHE_URLS)
          (ensure CRITICAL_CACHE (caches w))))
    CRITICAL_CACHE u.
Proof.
  intros Hall.
  destruct (on_install_ok net1 w Hall) as [t ->].
  rewrite on_activate_run. unfold stored.
  cbn [snd caches resolve].
  rewrite ensure_present.
  2:{ rewrite pruned_lookup, critical_tagged.
      rewrite written_lookup_ne by exact static_ne_critical.
      rewrite ensure_lookup_ne by exact static_ne_critical.
      apply written_is_Some, ensure_is_Some. }
  set (c1 := written net1 CRITICAL_CACHE (map (resolve w) PRECACHE_URLS)
               (ensure CRITICAL_CACHE (caches w))).
  set (warm := map (resolve w) criticalPages).
  assert (Hsame : forall key,
            entry (pruned (written net1 STATIC_CACHE (map (resolve w) fonts)
                             (ensure STATIC_CACHE c1))) CRITICAL_CACHE key
            = entry c1 CRITICAL_CACHE key).
  { intros key. rewrite entry_pruned by apply critical_tagged.
    rewrite entry_written_other by (left; exact static_ne_critical).
    apply entry_ensure. }
  assert (Hopen : forall c, is_Some (c !! CRITICAL_CACHE) ->
            forall c', is_Some (c' !! CRITICAL_CACHE) ->
            (forall key, entry c CRITICAL_CACHE key = entry c' CRITICAL_CACHE key) ->
            entry (written net2 CRITICAL_CACHE warm c) CRITICAL_CACHE u
            = entry (written net2 CRITICAL_CACHE warm c') CRITICAL_CACHE u).
  { intros c Hc c' Hc' Heq.
    destruct (in_dec string_dec u warm) as [Hin|Hout].
    - destruct (arriving net2 u) as [r|] eqn:Hu.
      + rewrite !(entry_written_resolved net2 _ _ _ u r) by assumption.
        reflexivity.
      + rewrite !entry_written_other by (right; right; exact Hu). apply Heq.
    - rewrite !entry_written_other by (right; left; exact Hout). apply Heq. }
  apply Hopen.
  - rewrite pruned_lookup, critical_tagged.
    rewrite written_lookup_ne by exact static_ne_critical.
    rewrite ensure_lookup_ne by exact static_ne_critical.
    apply written_is_Some, ensure_is_Some.
  - apply written_is_Some, ensure_is_Some.
  - exact Hsame.
Qed.

(** X6: a page of the precache list is served from the cache after an
    install that succeeded and the activation that follows, with no
    waiting and whatever the network does at the time of the request.
    The request is for the URL a string of the list names.  The response
    served is the one fetched at install, unless the page is one of the
    two warm-up pages and the warm-up fetch of activation resolved with a
    response the cache takes: then it is the warm-up response, of whatever
    status. *)
Theorem precache_served_offline (net1 net2 net3 : Network)
  (request : Request) (w : World) :
  forallb (resolves_ok net1) (map (resolve w) PRECACHE_URLS) = true ->
  In (url request) (map (resolve w) PRECACHE_URLS) ->
  let w2 := (on_activate net2 (on_install net1 w).2).2 in
  let out := cacheFirstStrategy net3 request CRITICAL_CACHE w2 in
  let warm := map (resolve w) criticalPages in
  clock out.2 = clock w2
  /\ (forall r2, In (url request) warm ->
        settled (net2 (url request)) = Resolves r2 -> status r2 <> 206%Z ->
        out.1 = Fulfilled r2)
  /\ (forall r1, settled (net1 (url request)) = Resolves r1 ->
        ~ In (url request) warm \/ fails_or_refused net2 (url request) ->
        out.1 = Fulfilled r1 /\ addable r1 = true).
Proof.
  intros Hall Hin. cbv zeta.
  pose proof (stored_after_install_activate net1 net2 w (url request) Hall)
    as Hst.
  assert (Hok : resolves_ok net1 (url request) = true).
  { rewrite forallb_forall in Hall. apply Hall. exact Hin. }
  destruct (checked_ok net1 _ Hok) as [r [Hr [Hchecked Harr]]].
  assert (Hfirst : entry
            (written net1 CRITICAL_CACHE (map (resolve w) PRECACHE_URLS)
               (ensure CRITICAL_CACHE (caches w)))
            CRITICAL_CACHE (url request) = Some r).
  { apply entry_written_resolved;
      [apply ensure_is_Some | exact Hin | exact Harr]. }
  assert (Hsome : exists cached,
            stored (on_activate net2 (on_install net1 w).2).2
              CRITICAL_CACHE (url request) = Some cached
            /\ (forall r2, In (url request) (map (resolve w) criticalPages) ->
                  arriving net2 (url request) = Some r2 -> cached = r2)
            /\ (~ In (url request) (map (resolve w) criticalPages)
                \/ arriving net2 (url request) = None ->
                cached = r)).
  { rewrite Hst.
    destruct (in_dec string_dec (url request)
                (map (resolve w) criticalPages)) as [Hwarm|Hcold].
    - destruct (arriving net2 (url request)) as [r2|] eqn:H2.
      + exists r2. split; [| split].
        * apply entry_written_resolved;
            [apply written_is_Some, ensure_is_Some | exact Hwarm | exact H2].
        * intros r2' _ Heq. congruence.
        * intros [Hout | He]; [contradiction | discriminate].
      + exists r. split; [| split].
        * rewrite entry_written_other by (right; right; exact H2).
          exact Hfirst.
        * intros r2 _ Heq. discriminate.
        * reflexivity.
    - exists r. split; [| split].
      + rewrite entry_written_other by (right; left; exact Hcold).
        exact Hfirst.
      + intros r2 Hwarm. contradiction.
      + reflexivity. }
  destruct Hsome as [cached [Hcached [Hwarm Hcold]]].
  destruct (cacheFirst_hit_result net3 request CRITICAL_CACHE _ cached Hcached)
    as [Hret Hclock].
  split; [exact Hclock | split].
  - intros r2 Hin2 H2 Hs2. rewrite Hret.
    rewrite (Hwarm r2 Hin2 (arriving_resolved net2 _ _ H2 Hs2)).
    reflexivity.
  - intros r1 H1 Hno. rewrite Hret.
    rewrite Hcold.
    + assert (r1 = r) as -> by congruence. split; [reflexivity |].
      unfold resolves_ok in Hok. rewrite Hr in Hok. exact Hok.
    + destruct Hno as [Hout | Hbad]; [left; exact Hout |].
      right. apply arriving_None. exact Hbad.
Qed.

Lemma precache_served_offline_witness :
  (cacheFirstStrategy offline
     (request_of "example.com" "/index.html" "document")
     CRITICAL_CACHE (on_activate offline (on_install online fresh).2).2).1
  = Fulfilled page
  /\ (cacheFirstStrategy offline
        (request_of "example.com" "/about/index.html" "document")
        CRITICAL_CACHE (on_activate missing (on_install online fresh).2).2).1
     = Fulfilled not_found.
Proof.
  split.
  - destruct (precache_served_offline online offline offline
                (request_of "example.com" "/index.html" "document") fresh)
      as [_ [_ Hcold]];
      [vm_compute; reflexivity | right; left; reflexivity |].
    destruct (Hcold page) as [Hret _]; [reflexivity | | exact Hret].
    left. vm_compute. intuition discriminate.
  - destruct (precache_served_offline online missing offline
                (request_of "example.com" "/about/index.html" "document")
                fresh)
      as [_ [Hwarm _]];
      [vm_compute; reflexivity | do 3 right; left; reflexivity |].
    apply Hwarm; [left; reflexivity | reflexivity | vm_compute; discriminate].
Defined.



(** X8: a page stored by a [CACHE_PAGE] message is what network-first
    falls back to when the network fails or times out, whatever the status
    of the stored response, a partial response apart, which the cache does
    not take: an error page cached by the command is served as the
    fallback.  The request is one for the URL the string of the message
    names. *)
Theorem cached_page_is_offline_fallback (net1 net2 : Network)
  (u : string) (request : Request) (w : World) (r : Response) :
  resolve w u = url request ->
  settled (net1 (url request)) = Resolves r ->
  status r <> 206%Z ->
  fails_within net2 (url request) NETWORK_TIMEOUT ->
  let w1 := (on_message net1 (CACHE_PAGE u) w).2 in
  (networkFirstStrategy net2 request DYNAMIC_CACHE w1).1 = Fulfilled r.
Proof.
  intros Hurl Hr Hs Hfail. cbv zeta.
  rewrite (networkFirst_fails_result net2) by exact Hfail.
  rewrite on_message_cache_page. unfold stored. cbn [snd caches].
  rewrite Hurl.
  rewrite (entry_written_resolved net1 _ _ _ _ r);
    [reflexivity | apply ensure_is_Some | left; reflexivity |].
  apply arriving_resolved; assumption.
Qed.

Lemma cached_page_is_offline_fallback_witness :
  (networkFirstStrategy offline
     (request_of "example.com" "/gone" "document")
     DYNAMIC_CACHE (on_message missing (CACHE_PAGE "/gone") fresh).2).1
  = Fulfilled not_found.
Proof.
  apply (cached_page_is_offline_fallback missing offline "/gone"
           (request_of "example.com" "/gone" "document")
           fresh not_found).
  - reflexivity.
  - reflexivity.
  - vm_compute. discriminate.
  - right. exists "TypeError: Failed to fetch". reflexivity.
Defined.

(** X9: stale-while-revalidate never rejects, and it fulfils with no
    response ([undefined]) exactly when the partition has no copy and the
    timed fetch fails or times out. *)
Theorem stale_while_revalidate_undefined_iff (net : Network)
  (request : Request) (name : string) (w : World) :
  let out := staleWhileRevalidateStrategy net request name w in
  (exists v, out.1 = Fulfilled v)
  /\ (out.1 = Fulfilled None <->
      stored w name (url request) = None
      /\ fails_within net (url request) DEFAULT_TIMEOUT).
Proof.
  cbv zeta.
  destruct (resolves_or_fails net (url request) DEFAULT_TIMEOUT)
    as [[r Hres] | Hfail].
  - rewrite (staleWhileRevalidate_resolves net _ _ _ _ Hres). cbn [fst].
    split; [eauto |]. split.
    + intros H. discriminate H.
    + intros [_ Hfail]. destruct (resolves_not_fails net _ _ _ Hres Hfail).
  - rewrite (staleWhileRevalidate_fails net _ _ _ Hfail). cbn [fst].
    split; [eauto |]. split.
    + intros H. split; [congruence | exact Hfail].
    + intros [-> _]. reflexivity.
Qed.

Lemma stale_while_revalidate_undefined_iff_witness :
  (staleWhileRevalidateStrategy offline
     (request_of "example.com" "/css/site.css" "style") STATIC_CACHE fresh).1
  = Fulfilled None.
Proof.
  destruct (stale_while_revalidate_undefined_iff offline
              (request_of "example.com" "/css/site.css" "style")
              STATIC_CACHE fresh) as [_ [_ Hback]].
  apply Hback. split; [vm_compute; reflexivity |].
  right. exists "TypeError: Failed to fetch". reflexivity.
Defined.

(** X10: when serving a request can fail.  A request on a critical path is
    always answered with a response; a style, script or image request off
    the critical paths never rejects; any other request rejects exactly
    when the timed fetch fails or times out and the dynamic partition has
    no copy, and is answered with a response otherwise. *)
Theorem handle_request_outcomes (net : Network) (host : string)
  (request : Request) (w : World) :
  let out := handleRequest net host request w in
  (classify host request = Critical ->
     exists r, out.1 = Fulfilled (Some r))
  /\ (classify host request = StaticAsset ->
      exists v, out.1 = Fulfilled v)
  /\ (classify host request = External \/ classify host request = Dynamic ->
      ((exists e, out.1 = Rejected e) <->
       fails_within net (url request) NETWORK_TIMEOUT
       /\ stored w DYNAMIC_CACHE (url request) = None)
      /\ ((exists r, out.1 = Fulfilled (Some r)) \/ (exists e, out.1 = Rejected e))).
Proof.
  cbv zeta. rewrite handleRequest_dispatch.
  assert (Hnf :
    let out := respond (networkFirstStrategy net request DYNAMIC_CACHE) w in
    ((exists e, out.1 = Rejected e) <->
     fails_within net (url request) NETWORK_TIMEOUT
     /\ stored w DYNAMIC_CACHE (url request) = None)
    /\ ((exists r, out.1 = Fulfilled (Some r))
        \/ (exists e, out.1 = Rejected e))).
  { cbv zeta. rewrite respond_run. cbn [fst].
    destruct (resolves_or_fails net (url request) NETWORK_TIMEOUT)
      as [[r Hres] | Hfail].
    - rewrite (networkFirst_resolves net _ _ _ _ Hres). cbn [fst]. split.
      + split.
        * intros [e He]. discriminate He.
        * intros [Hfail _].
          destruct (resolves_not_fails net _ _ _ Hres Hfail).
      + left. eauto.
    - destruct (networkFirst_fails net request DYNAMIC_CACHE w Hfail)
        as [e [_ ->]]. cbn [fst].
      destruct (stored w DYNAMIC_CACHE (url request)) as [cached|]; split.
      + split; [intros [e' He']; discriminate He' |].
        intros [_ H]. discriminate H.
      + left. eauto.
      + split; [intros _; split; [exact Hfail | reflexivity] | eauto].
      + right. eauto. }
  split; [| split].
  - intros ->. cbn [dispatch]. rewrite respond_run. cbn [fst].
    destruct (stored w CRITICAL_CACHE (url request)) as [cached|] eqn:Hst.
    + rewrite (cacheFirst_hit net _ _ _ _ Hst). eauto.
    + destruct (resolves_or_fails net (url request) DEFAULT_TIMEOUT)
        as [[r Hres] | Hfail].
      * rewrite (cacheFirst_miss_resolves net _ _ _ _ Hst Hres). eauto.
      * rewrite (cacheFirst_miss_fails net _ _ _ Hst Hfail). eauto.
  - intros ->. cbn [dispatch].
    destruct (resolves_or_fails net (url request) DEFAULT_TIMEOUT)
      as [[r Hres] | Hfail].
    + rewrite (staleWhileRevalidate_resolves net _ _ _ _ Hres). eauto.
    + rewrite (staleWhileRevalidate_fails net _ _ _ Hfail). eauto.
  - intros [-> | ->]; cbn [dispatch]; exact Hnf.
Qed.

Lemma handle_request_outcomes_witness :
  (exists r,
     (handleRequest offline "example.com"
        (request_of "example.com" "/index.html" "document") fresh).1
     = Fulfilled (Some r))
  /\ (exists e,
        (handleRequest offline "example.com"
           (request_of "example.com" "/api/quote" "") fresh).1
        = Rejected e).
Proof.
  destruct (handle_request_outcomes offline "example.com"
              (request_of "example.com" "/index.html" "document") fresh)
    as [Hcrit _].
  destruct (handle_request_outcomes offline "example.com"
              (request_of "example.com" "/api/quote" "") fresh)
    as [_ [_ Hdyn]].
  split; [apply Hcrit; reflexivity |].
  destruct Hdyn as [[_ Hrej] _]; [right; reflexivity |].
  apply Hrej. split; [| vm_compute; reflexivity].
  right. exists "TypeError: Failed to fetch". reflexivity.
Defined.



End WorkerCoverage.

(** ** Further properties of the prefetch hints *)

Section PrefetchCoverage.
Import Optimizer.
Variable origin_of : string -> option string.
Variable location_origin : string.

Local Abbreviation appends' :=
  (PrefetchInvariant.appends origin_of location_origin).

Lemma appends_refl p : appends' p p.
Proof.
  exists []. rewrite app_nil_r. cbn [map]. rewrite list_to_set_nil.
  split; [reflexivity | split; [| split; constructor]].
  rewrite (left_id_L ∅ (∪)). reflexivity.
Qed.

Lemma appends_trans p q r : appends' p q -> appends' q r -> appends' p r.
Proof.
  intros [a1 [Hh1 [Hs1 [Hn1 Hf1]]]] [a2 [Hh2 [Hs2 [Hn2 Hf2]]]].
  exists (a1 ++ a2)%list.
  rewrite Hh2, Hh1, Hs2, Hs1, List.map_app, <- app_assoc.
  split; [reflexivity | split; [| split]].
  - rewrite list_to_set_app_L, (assoc_L (∪)). f_equal. apply (comm_L (∪)).
  - apply NoDup_app. split; [exact Hn1 | split; [| exact Hn2]].
    intros h Hin1 Hin2. apply list_elem_of_In, in_map_iff in Hin2.
    destruct Hin2 as [l [<- Hl]]. apply list_elem_of_In in Hl.
    rewrite Forall_forall in Hf2. destruct (Hf2 l Hl) as [_ [_ Hnew]].
    apply Hnew. rewrite Hs1. apply elem_of_union. left.
    apply elem_of_list_to_set. exact Hin1.
  - apply Forall_app. split; [exact Hf1 |].
    eapply Forall_impl; [exact Hf2 |]. cbn.
    intros l [Hrel [Hint Hnew]]. split; [exact Hrel | split; [exact Hint |]].
    intros Hin. apply Hnew. rewrite Hs1. apply elem_of_union. right.
    exact Hin.
Qed.

Lemma prefetchResource_appends k p :
  appends' p (prefetchResource origin_of location_origin k p).
Proof.
  unfold prefetchResource.
  destruct (bool_decide (k ∈ resourceHints p)) eqn:Hseen; cbn [negb andb];
    [apply appends_refl |].
  destruct (isInternalLink origin_of location_origin k) eqn:Hint;
    [| apply appends_refl].
  exists [mkLink "prefetch" k]. cbn [head resourceHints map href].
  apply bool_decide_eq_false in Hseen.
  rewrite list_to_set_cons, list_to_set_nil, (right_id_L ∅ (∪)).
  split; [reflexivity | split; [reflexivity | split]].
  - apply NoDup_singleton.
  - constructor; [| constructor]. cbn [rel href]. auto.
Qed.

Lemma prefetchEach_appends links p :
  appends' p (prefetchEach origin_of location_origin links p).
Proof.
  unfold prefetchEach. revert p.
  induction links as [|k links IH]; intros p; cbn [fold_left].
  - apply appends_refl.
  - eapply appends_trans; [apply prefetchResource_appends | apply IH].
Qed.

Lemma fire_appends t p : appends' p (fire origin_of location_origin t p).
Proof.
  destruct t as [k | links | visible]; cbn [fire].
  - unfold on_mouseover.
    destruct (isInternalLink origin_of location_origin k).
    + apply prefetchResource_appends.
    + apply appends_refl.
  - apply prefetchEach_appends.
  - apply prefetchEach_appends.
Qed.

(** X12: whatever triggers fire, the prefetch code only appends to the
    head: what was there stays in place, and every link added is a
    prefetch hint for an internal link that had not been requested; no two
    added links are for the same URL, and the set of requested URLs grows
    by exactly the URLs of the added links. *)
Theorem prefetch_only_appends (ts : list Trigger) (p : Page) :
  exists added,
    head (run origin_of location_origin ts p) = (head p ++ added)%list
    /\ resourceHints (run origin_of location_origin ts p)
       = list_to_set (map href added) ∪ resourceHints p
    /\ NoDup (map href added)
    /\ Forall
         (fun l =>
            rel l = "prefetch"
            /\ isInternalLink origin_of location_origin (href l) = true
            /\ href l ∉ resourceHints p)
         added.
Proof.
  change (appends' p (run origin_of location_origin ts p)).
  unfold run. revert p.
  induction ts as [|t ts IH]; intros p; cbn [fold_left].
  - apply appends_refl.
  - eapply appends_trans; [apply fire_appends | apply IH].
Qed.

End PrefetchCoverage.

(** ** Resource hints of the bootstrap *)

Section BootstrapCoverage.
Import Optimizer Bootstrap.

Lemma link_for_href h : getAttribute "href" (link_for h) = Some (hint_href h).
Proof. reflexivity. Qed.

Lemma addHint_seen h d u :
  u ∈ hintsSeen d -> u ∈ hintsSeen (addHint h d).
Proof.
  intros Hu. unfold addHint. destruct (bool_decide _); [exact Hu |].
  cbn [hintsSeen]. apply elem_of_union. right. exact Hu.
Qed.

Lemma addHints_seen hs d u :
  u ∈ hintsSeen d -> u ∈ hintsSeen (addHints hs d).
Proof.
  unfold addHints. revert d.
  induction hs as [|h hs IH]; intros d Hu; cbn [fold_left].
  - exact Hu.
  - apply IH, addHint_seen, Hu.
Qed.

Lemma addHint_own h d : hint_href h ∈ hintsSeen (addHint h d).
Proof.
  unfold addHint. destruct (bool_decide _) eqn:Hseen.
  - apply bool_decide_eq_true in Hseen. exact Hseen.
  - cbn [hintsSeen]. apply elem_of_union. left. apply elem_of_singleton.
    reflexivity.
Qed.

Lemma addHints_all_seen hs d h :
  In h hs -> hint_href h ∈ hintsSeen (addHints hs d).
Proof.
  unfold addHints. revert d.
  induction hs as [|k hs IH]; intros d Hin; cbn [fold_left].
  - destruct Hin.
  - destruct Hin as [->|Hin].
    + apply (addHints_seen hs), addHint_own.
    + apply IH. exact Hin.
Qed.

Lemma addHints_nothing_new hs d :
  (forall h, In h hs -> hint_href h ∈ hintsSeen d) -> addHints hs d = d.
Proof.
  unfold addHints. revert d.
  induction hs as [|k hs IH]; intros d Hall; cbn [fold_left].
  - reflexivity.
  - assert (Hk : addHint k d = d).
    { unfold addHint. rewrite bool_decide_eq_true_2; [reflexivity |].
      apply Hall. left. reflexivity. }
    rewrite Hk. apply IH. intros h Hin. apply Hall. right. exact Hin.
Qed.

(** The elements one pass appends for [u]: at most one, none when [u] was
    requested before. *)
Lemma addHints_appends hs d u :
  exists added,
    appended (addHints hs d) = (appended d ++ added)%list
    /\ (length (with_href u added)
        <= if bool_decide (u ∈ hintsSeen d) then 0 else 1)%nat.
Proof.
  unfold addHints. revert d.
  induction hs as [|h hs IH]; intros d; cbn [fold_left].
  - exists []. rewrite app_nil_r. split; [reflexivity |].
    cbn. destruct (bool_decide _); lia.
  - destruct (IH (addHint h d)) as [added [Happ Hcount]].
    unfold addHint in *.
    destruct (bool_decide (hint_href h ∈ hintsSeen d)) eqn:Hseen.
    + exists added. split; assumption.
    + cbn [appended hintsSeen] in *.
      exists (link_for h :: added). rewrite Happ, <- app_assoc.
      split; [reflexivity |].
      unfold with_href in *. cbn [List.filter]. rewrite link_for_href.
      apply bool_decide_eq_false in Hseen.
      destruct (decide (hint_href h = u)) as [Heq|Hne].
      * rewrite bool_decide_eq_true_2 by congruence.
        rewrite bool_decide_eq_true_2 in Hcount
          by (apply elem_of_union; left; apply elem_of_singleton; congruence).
        rewrite bool_decide_eq_false_2 by congruence.
        cbn [length]. lia.
      * rewrite (bool_decide_eq_false_2 (Some (hint_href h) = Some u))
          by congruence.
        assert (Hiff : u ∈ {[hint_href h]} ∪ hintsSeen d <-> u ∈ hintsSeen d).
        { rewrite elem_of_union, elem_of_singleton.
          split; [intros [Heq|Hin]; [congruence | exact Hin] | auto]. }
        rewrite (bool_decide_ext _ _ Hiff) in Hcount. exact Hcount.
Qed.

(** X13: the resource hints of the bootstrap are deduplicated by their
    [href] string.  For any list of hints and any document, a pass keeps
    what was appended before and appends at most one link for a given
    [href], none when that [href] was already requested; afterwards every
    [href] of the list is requested; running the pass again changes
    nothing.  [setupResourceHints] is the pass over the six hints of the
    source, and the prefetch code that runs after it adds no link for any
    of these six strings. *)
Theorem resource_hints_deduplicated (hs : list Hint) (d : Document)
  (u : string) :
  (exists added,
     appended (addHints hs d) = (appended d ++ added)%list
     /\ (length (with_href u added)
         <= if bool_decide (u ∈ hintsSeen d) then 0 else 1)%nat)
  /\ (forall h, In h hs -> hint_href h ∈ hintsSeen (addHints hs d))
  /\ addHints hs (addHints hs d) = addHints hs d
  /\ setupResourceHints (setupResourceHints d) = setupResourceHints d
  /\ (forall origin_of location_origin h,
        In h hints ->
        prefetchResource origin_of location_origin (hint_href h)
          (page_of (setupResourceHints d))
        = page_of (setupResourceHints d)).
Proof.
  split; [apply addHints_appends |].
  split; [intros h Hin; apply addHints_all_seen; exact Hin |].
  split; [| split].
  - apply addHints_nothing_new. intros h Hin.
    apply addHints_all_seen. exact Hin.
  - unfold setupResourceHints. apply addHints_nothing_new. intros h Hin.
    apply addHints_all_seen. exact Hin.
  - intros origin_of location_origin h Hin. unfold prefetchResource.
    cbn [page_of resourceHints].
    rewrite bool_decide_eq_true_2; [reflexivity |].
    unfold setupResourceHints. apply addHints_all_seen. exact Hin.
Qed.

Lemma resource_hints_deduplicated_witness :
  length (appended (setupResourceHints (mkDocument ∅ []))) = 6%nat
  /\ prefetchResource example_origin "https://example.com"
       "/about/index.html"
       (page_of (setupResourceHints (mkDocument ∅ [])))
     = page_of (setupResourceHints (mkDocument ∅ [])).
Proof.
  split; [vm_compute; reflexivity |].
  destruct (resource_hints_deduplicated hints (mkDocument ∅ []) "")
    as [_ [_ [_ [_ Hpre]]]].
  apply (Hpre example_origin "https://example.com"
           (mkHint "prefetch" "/about/index.html" None None)).
  cbn. auto.
Defined.

End BootstrapCoverage.

(** ** [throttle] and [debounce] *)

Section TimersCoverage.
Import Platform Timers.
Context {A : Type}.
Implicit Types calls : list (Call A).
Implicit Types c : Call A.

(** A timer has run before a call only if it was due by then. *)
Lemma has_run_true due c : has_run due c = true -> due <= time c.
Proof.
  unfold has_run. rewrite andb_true_iff, N.leb_le. intros [H _]. exact H.
Qed.

(** A timer that has not run is due later than the call, or the call
    came before the event loop got to it. *)
Lemma has_run_false due c :
  has_run due c = false <-> time c < due \/ timers_first c = false.
Proof.
  unfold has_run. rewrite andb_false_iff, N.leb_gt. reflexivity.
Qed.

Lemma throttle_run_not_before limit calls (s : Throttled) due :
  inThrottle s = true -> reset_at s = Some due ->
  Forall (fun x => due <= time x) (throttle_run limit calls s).
Proof.
  revert s due. induction calls as [|c calls IH]; intros s due Hin Hdue.
  - constructor.
  - cbn [throttle_run]. unfold throttle_call, throttle_tick. rewrite Hdue.
    destruct (has_run due c) eqn:Hrun; cbn [inThrottle].
    + apply has_run_true in Hrun. constructor; [exact Hrun |].
      eapply Forall_impl;
        [apply (IH _ (time c + timer_delay limit)); reflexivity |].
      cbn. intros x Hx. lia.
    + rewrite Hin. apply (IH s due Hin Hdue).
Qed.

Lemma throttle_run_spaced limit calls (s : Throttled) :
  Sorted (fun x y => time x + timer_delay limit <= time y)
    (throttle_run limit calls s).
Proof.
  revert s. induction calls as [|c calls IH]; intros s.
  - constructor.
  - cbn [throttle_run]. destruct (throttle_call limit c s) as [ran s'] eqn:Hc.
    destruct ran; [| apply IH].
    constructor; [apply IH |].
    unfold throttle_call in Hc.
    destruct (inThrottle (throttle_tick c s)); [discriminate |].
    injection Hc as <-.
    pose proof (throttle_run_not_before limit calls
                  (mkThrottled true (Some (time c + timer_delay limit)))
                  (time c + timer_delay limit) eq_refl eq_refl) as Hall.
    destruct (throttle_run limit calls _) as [|y rest]; constructor.
    inversion Hall; subst. assumption.
Qed.

Lemma throttle_run_sublist limit calls (s : Throttled) :
  sublist (throttle_run limit calls s) calls.
Proof.
  revert s. induction calls as [|c calls IH]; intros s.
  - constructor.
  - cbn [throttle_run]. destruct (throttle_call limit c s) as [[|] s'].
    + apply sublist_skip, IH.
    + apply sublist_cons, IH.
Qed.

(** A call that is dropped finds the reset of a call that ran not yet
    run, or the state it started from still throttled. *)
Lemma throttle_run_maximal limit calls (s : Throttled) c :
  StronglySorted (fun x y => time x <= time y) calls ->
  In c calls ->
  In c (throttle_run limit calls s)
  \/ (exists c', In c' (throttle_run limit calls s)
                 /\ time c' <= time c
                 /\ has_run (time c' + timer_delay limit) c = false)
  \/ (inThrottle s = true
      /\ forall due, reset_at s = Some due -> has_run due c = false).
Proof.
  revert s. induction calls as [|c0 calls IH]; intros s Hsorted Hin.
  - destruct Hin.
  - inversion Hsorted as [|? ? Hrest Hall]; subst.
    cbn [throttle_run]. unfold throttle_call.
    destruct (inThrottle (throttle_tick c0 s)) eqn:Htick.
    + (* dropped *)
      assert (Hkept : throttle_tick c0 s = s
                      /\ inThrottle s = true
                      /\ forall due, reset_at s = Some due ->
                                     has_run due c0 = false).
      { unfold throttle_tick in *. destruct (reset_at s) as [due|] eqn:Hdue.
        - destruct (has_run due c0) eqn:Hrun; [discriminate |].
          repeat split; [exact Htick |]. intros due' [= <-]. exact Hrun.
        - repeat split; [exact Htick |]. intros due' H. discriminate H. }
      destruct Hkept as [-> [Hthr Hlt]].
      destruct Hin as [<-|Hin].
      * right. right. split; [exact Hthr | exact Hlt].
      * destruct (IH s Hrest Hin) as [H | [H | H]]; auto.
    + (* ran *)
      destruct Hin as [<-|Hin]; [left; left; reflexivity |].
      destruct (IH (mkThrottled true (Some (time c0 + timer_delay limit)))
                  Hrest Hin)
        as [H | [[c' [Hc' Hnear]] | [_ Hlt]]].
      * left. right. exact H.
      * right. left. exists c'. split; [right; exact Hc' | exact Hnear].
      * right. left. exists c0. split; [left; reflexivity |].
        rewrite Forall_forall in Hall.
        specialize (Hall c (proj2 (list_elem_of_In _ _) Hin)).
        split; [exact Hall | apply Hlt; reflexivity].
Qed.


(** *** [debounce] *)

Lemma debounce_run_sublist wait calls (c0 : Call A) :
  sublist (debounce_run wait calls (Some (delayed wait c0)))
          (map (delayed wait) (c0 :: calls)).
Proof.
  revert c0. induction calls as [|c calls IH]; intros c0.
  - cbn. apply sublist_skip. constructor.
  - cbn [debounce_run debounce_call]. unfold delayed at 1.
    specialize (IH c). unfold delayed in IH at 1.
    rewrite (List.map_cons _ c0).
    destruct (has_run (time c0 + timer_delay wait) c).
    + cbn [app]. apply sublist_skip. exact IH.
    + cbn [app]. apply sublist_cons. exact IH.
Qed.

Lemma debounce_run_last wait calls (x : N * A) :
  last (debounce_run wait calls (Some x))
  = Some (match last calls with
          | Some c => delayed wait c
          | None => x
          end).
Proof.
  revert x. induction calls as [|c calls IH]; intros [due a0].
  - reflexivity.
  - cbn [debounce_run debounce_call]. rewrite last_app, IH, last_cons.
    destruct (last calls); reflexivity.
Qed.

Lemma debounce_run_burst wait calls (c0 : Call A) :
  Sorted (fun x y => has_run (time x + timer_delay wait) y = false)
    (c0 :: calls) ->
  debounce_run wait calls (Some (delayed wait c0))
  = [match last calls with
     | Some c => delayed wait c
     | None => delayed wait c0
     end].
Proof.
  revert c0. induction calls as [|c calls IH]; intros c0 Hs.
  - reflexivity.
  - inversion Hs as [|? ? Hrest Hhd]; subst.
    inversion Hhd as [|? ? Hlt]; subst.
    cbn [debounce_run debounce_call]. unfold delayed at 1. rewrite Hlt.
    cbn [app]. specialize (IH c Hrest).
    unfold delayed in IH at 1. rewrite IH, last_cons.
    destruct (last calls); reflexivity.
Qed.

Lemma debounce_run_spaced wait calls (c0 : Call A) :
  Sorted (fun x y => has_run (time x + timer_delay wait) y = true)
    (c0 :: calls) ->
  debounce_run wait calls (Some (delayed wait c0))
  = map (delayed wait) (c0 :: calls).
Proof.
  revert c0. induction calls as [|c calls IH]; intros c0 Hs.
  - reflexivity.
  - inversion Hs as [|? ? Hrest Hhd]; subst.
    inversion Hhd as [|? ? Hle]; subst.
    cbn [debounce_run debounce_call]. unfold delayed at 1. rewrite Hle.
    specialize (IH c Hrest). unfold delayed in IH at 1.
    rewrite IH. reflexivity.
Qed.


End TimersCoverage.

Section TimersExample.
Import Platform Timers.



End TimersExample.

(** ** Performance metrics *)

Section VitalsCoverage.
Import Vitals.
Variable num : Type.
Variable zero : num.
Variable add sub : num -> num -> num.

Local Abbreviation Monitor' := (Monitor num).
Local Abbreviation Entry' := (PerfEntry num).

Lemma fold_left_keeps {S E X} (step : S -> E -> S) (view : S -> X) es s :
  (forall acc e, view (step acc e) = view acc) ->
  view (fold_left step es s) = view s.
Proof.
  intros Hstep. revert s. induction es as [|e es IH]; intros s; cbn [fold_left].
  - reflexivity.
  - rewrite IH. apply Hstep.
Qed.

Lemma from_option_last_app {X} (f : Entry' -> X) (d : X) (es rest : list Entry') :
  from_option f (from_option f d (last es)) (last rest)
  = from_option f d (last (es ++ rest)).
Proof. rewrite last_app. destruct (last rest); reflexivity. Qed.

Lemma fcp_observe_all ss (m : Monitor') :
  fcp num (metrics num (observe_all num add sub ss m))
  = from_option (startTime num) (fcp num (metrics num m))
      (last (paints num ss)).
Proof.
  unfold observe_all. revert m.
  induction ss as [|s ss IH]; intros m; cbn [fold_left].
  - reflexivity.
  - rewrite IH. unfold paints. cbn [map concat].
    rewrite <- from_option_last_app. f_equal.
    destruct s as [es|es|es|es]; cbn [observe].
    + unfold on_paint. destruct (last es); reflexivity.
    + unfold on_largest_paint. destruct (last es); reflexivity.
    + unfold on_first_input.
      apply (fold_left_keeps _ (fun x => fcp num (metrics num x))).
      intros acc e. destruct (String.eqb _ _); reflexivity.
    + unfold on_layout_shift.
      apply (fold_left_keeps _ (fun x => fcp num (metrics num x))).
      intros acc e. destruct (negb _); reflexivity.
Qed.

Lemma lcp_observe_all ss (m : Monitor') :
  lcp num (metrics num (observe_all num add sub ss m))
  = from_option (startTime num) (lcp num (metrics num m))
      (last (largest_paints num ss)).
Proof.
  unfold observe_all. revert m.
  induction ss as [|s ss IH]; intros m; cbn [fold_left].
  - reflexivity.
  - rewrite IH. unfold largest_paints. cbn [map concat].
    rewrite <- from_option_last_app. f_equal.
    destruct s as [es|es|es|es]; cbn [observe].
    + unfold on_paint. destruct (last es); reflexivity.
    + unfold on_largest_paint. destruct (last es); reflexivity.
    + unfold on_first_input.
      apply (fold_left_keeps _ (fun x => lcp num (metrics num x))).
      intros acc e. destruct (String.eqb _ _); reflexivity.
    + unfold on_layout_shift.
      apply (fold_left_keeps _ (fun x => lcp num (metrics num x))).
      intros acc e. destruct (negb _); reflexivity.
Qed.

Lemma ttfb_observe_all ss (m : Monitor') :
  ttfb num (metrics num (observe_all num add sub ss m))
  = ttfb num (metrics num m).
Proof.
  unfold observe_all.
  apply (fold_left_keeps _ (fun x => ttfb num (metrics num x))).
  intros acc [es|es|es|es]; cbn [observe].
  - unfold on_paint. destruct (last es); reflexivity.
  - unfold on_largest_paint. destruct (last es); reflexivity.
  - unfold on_first_input.
    apply (fold_left_keeps _ (fun x => ttfb num (metrics num x))).
    intros a e. destruct (String.eqb _ _); reflexivity.
  - unfold on_layout_shift.
    apply (fold_left_keeps _ (fun x => ttfb num (metrics num x))).
    intros a e. destruct (negb _); reflexivity.
Qed.

Lemma fid_first_input es (m : Monitor') :
  fid num (metrics num (on_first_input num sub es m))
  = from_option (fun e => sub (processingStart num e) (startTime num e))
      (fid num (metrics num m))
      (last (List.filter (is_first_input num) es)).
Proof.
  unfold on_first_input. revert m.
  induction es as [|e es IH]; intros m; cbn [fold_left List.filter].
  - reflexivity.
  - rewrite IH. unfold is_first_input at 2.
    destruct (String.eqb (entry_name num e) "first-input").
    + rewrite last_cons.
      destruct (last (List.filter (is_first_input num) es)); reflexivity.
    + reflexivity.
Qed.

Lemma fid_observe_all ss (m : Monitor') :
  fid num (metrics num (observe_all num add sub ss m))
  = from_option (fun e => sub (processingStart num e) (startTime num e))
      (fid num (metrics num m))
      (last (List.filter (is_first_input num) (first_inputs num ss))).
Proof.
  unfold observe_all. revert m.
  induction ss as [|s ss IH]; intros m; cbn [fold_left].
  - reflexivity.
  - rewrite IH. unfold first_inputs. cbn [map concat].
    rewrite List.filter_app, <- from_option_last_app. f_equal.
    destruct s as [es|es|es|es]; cbn [observe].
    + unfold on_paint. destruct (last es); reflexivity.
    + unfold on_largest_paint. destruct (last es); reflexivity.
    + apply fid_first_input.
    + unfold on_layout_shift.
      apply (fold_left_keeps _ (fun x => fid num (metrics num x))).
      intros acc e. destruct (negb _); reflexivity.
Qed.

(** The running sum and the metric agree once they agree. *)
Lemma layout_shift_score es (m : Monitor') :
  cls num (metrics num m) = clsScore num m ->
  let m' := on_layout_shift num add es m in
  cls num (metrics num m') = clsScore num m'
  /\ clsScore num m'
     = fold_left add
         (map (value num)
            (List.filter (fun e => negb (hadRecentInput num e)) es))
         (clsScore num m).
Proof.
  cbv zeta. unfold on_layout_shift. revert m.
  induction es as [|e es IH]; intros m Hm; cbn [fold_left List.filter map].
  - split; [exact Hm | reflexivity].
  - destruct (negb (hadRecentInput num e)).
    + destruct (IH (add_shift num add (value num e) m) eq_refl) as [H1 H2].
      split; [exact H1 |]. rewrite H2. reflexivity.
    + apply IH. exact Hm.
Qed.

Lemma cls_observe_all ss (m : Monitor') :
  cls num (metrics num m) = clsScore num m ->
  let m' := observe_all num add sub ss m in
  cls num (metrics num m') = clsScore num m'
  /\ clsScore num m'
     = fold_left add
         (map (value num)
            (List.filter (fun e => negb (hadRecentInput num e))
               (layout_shifts num ss)))
         (clsScore num m).
Proof.
  cbv zeta. unfold observe_all. revert m.
  induction ss as [|s ss IH]; intros m Hm; cbn [fold_left].
  - split; [exact Hm | reflexivity].
  - unfold layout_shifts. cbn [map concat].
    rewrite List.filter_app, List.map_app, fold_left_app.
    assert (Hstep :
      cls num (metrics num (observe num add sub s m))
      = clsScore num (observe num add sub s m)
      /\ clsScore num (observe num add sub s m)
         = fold_left add
             (map (value num)
                (List.filter (fun e => negb (hadRecentInput num e))
                   match s with
                   | LayoutShift _ es => es
                   | _ => []
                   end))
             (clsScore num m)).
    { destruct s as [es|es|es|es]; cbn [observe].
      - unfold on_paint. destruct (last es); split; cbn; auto.
      - unfold on_largest_paint. destruct (last es); split; cbn; auto.
      - unfold on_first_input. split.
        + rewrite (fold_left_keeps _ (fun x => cls num (metrics num x)))
            by (intros acc e; destruct (String.eqb _ _); reflexivity).
          rewrite (fold_left_keeps _ (fun x => clsScore num x))
            by (intros acc e; destruct (String.eqb _ _); reflexivity).
          exact Hm.
        + apply (fold_left_keeps _ (fun x => clsScore num x)).
          intros acc e. destruct (String.eqb _ _); reflexivity.
      - apply layout_shift_score. exact Hm. }
    destruct Hstep as [Hinv Hscore].
    destruct (IH _ Hinv) as [H1 H2]. split; [exact H1 |].
    rewrite H2, Hscore. reflexivity.
Qed.

(** X16: the metrics as a function of the feed.  After any sequence of
    observer calls, however the entries are split into calls and however
    the four observers interleave: [fcp] is the start time of the last
    paint entry received, whatever its name, and [lcp] that of the last
    largest-paint entry; [fid] comes from the last entry named
    [first-input] and from no other; [cls] is the sum, from left to right,
    of the values of the layout shifts without recent input; no observer
    touches [ttfb].  A metric with no entry of its kind is the initial
    zero. *)
Theorem vitals_follow_the_feed (ss : list (Signal num)) :
  let m := getMetrics num (observe_all num add sub ss (initial num zero)) in
  fcp num m = from_option (startTime num) zero (last (paints num ss))
  /\ lcp num m
     = from_option (startTime num) zero (last (largest_paints num ss))
  /\ fid num m
     = from_option (fun e => sub (processingStart num e) (startTime num e))
         zero
         (last (List.filter (is_first_input num) (first_inputs num ss)))
  /\ cls num m
     = fold_left add
         (map (value num)
            (List.filter (fun e => negb (hadRecentInput num e))
               (layout_shifts num ss)))
         zero
  /\ ttfb num m = zero.
Proof.
  cbv zeta. unfold getMetrics.
  rewrite fcp_observe_all, lcp_observe_all, fid_observe_all, ttfb_observe_all.
  do 3 (split; [reflexivity |]). split; [| reflexivity].
  destruct (cls_observe_all ss (initial num zero) eq_refl) as [-> ->].
  reflexivity.
Qed.

End VitalsCoverage.

(** ** Deferred content *)

Section LazyLoadCoverage.
Import LazyLoad.
Variable markup : string -> string -> string.

Lemma classList_add_In token classes : In token (classList_add token classes).
Proof.
  unfold classList_add. destruct (existsb _ classes) eqn:Hex.
  - apply existsb_exists in Hex. destruct Hex as [c [Hc Heq]].
    apply String.eqb_eq in Heq. subst. exact Hc.
  - apply in_or_app. right. left. reflexivity.
Qed.

Lemma classList_add_keeps token classes c :
  In c classes -> In c (classList_add token classes).
Proof.
  intros Hc. unfold classList_add. destruct (existsb _ classes); [exact Hc |].
  apply in_or_app. left. exact Hc.
Qed.

Lemma classList_add_twice token classes :
  classList_add token (classList_add token classes)
  = classList_add token classes.
Proof.
  unfold classList_add at 1.
  assert (Hex : existsb (String.eqb token) (classList_add token classes)
                = true).
  { apply existsb_exists. exists token.
    split; [apply classList_add_In | apply String.eqb_refl]. }
  rewrite Hex. reflexivity.
Qed.

(** X17: [loadElement] can be applied again without effect, which is what
    makes a second delivery of the same element harmless.  After it the
    element has no usable [data-src] or [data-lazy] left and has the class
    [loaded], with the classes it had; a non-empty [data-src] has become
    [src], and a non-empty [data-lazy] has been assigned to [innerHTML],
    which then reads as the markup the parser makes of it; an empty one is
    left where it is and changes nothing. *)
Theorem load_element_once (e : LazyElement) :
  let e' := loadElement markup e in
  loadElement markup e' = e'
  /\ tagName e' = tagName e
  /\ present (data_src e') = false
  /\ present (data_lazy e') = false
  /\ In "loaded" (classList e')
  /\ (forall c, In c (classList e) -> In c (classList e'))
  /\ (present (data_src e) = true ->
      src e' = data_src e /\ data_src e' = None)
  /\ (present (data_src e) = false ->
      src e' = src e /\ data_src e' = data_src e)
  /\ (present (data_lazy e) = true ->
      (exists content,
         data_lazy e = Some content
         /\ innerHTML e' = markup (tagName e) content)
      /\ data_lazy e' = None)
  /\ (present (data_lazy e) = false ->
      innerHTML e' = innerHTML e /\ data_lazy e' = data_lazy e).
Proof.
  destruct e as [tg ds dl s h cs]. cbv zeta. unfold loadElement, present.
  destruct ds as [v|]; destruct dl as [u|];
    try destruct (String.eqb v "") eqn:Hv;
    try destruct (String.eqb u "") eqn:Hu;
    repeat (cbn [tagName data_src data_lazy src innerHTML classList negb
                 default];
            rewrite ?Hv, ?Hu);
    rewrite classList_add_twice;
    (split; [reflexivity |]);
    (split; [reflexivity |]);
    (split; [reflexivity |]);
    (split; [reflexivity |]);
    (split; [apply classList_add_In |]);
    (split; [intros c; apply classList_add_keeps |]);
    repeat split; try discriminate; try reflexivity; eauto.
Qed.

Lemma loadElement_twice e :
  loadElement markup (loadElement markup e) = loadElement markup e.
Proof.
  destruct e as [tg ds dl s h cs]. unfold loadElement, present.
  destruct ds as [v|]; destruct dl as [u|];
    try destruct (String.eqb v "") eqn:Hv;
    try destruct (String.eqb u "") eqn:Hu;
    repeat (cbn [tagName data_src data_lazy src innerHTML classList negb
                 default];
            rewrite ?Hv, ?Hu);
    rewrite classList_add_twice; reflexivity.
Qed.

(** What the callback has done to the element [id] that was [e], and to
    its observation, after the entries [is]. *)
Lemma lazy_callback_state entries p id e :
  let hit := existsb (fun i => isIntersecting i && Nat.eqb (target i) id)
               entries in
  (elements p !! id = Some e ->
   elements (lazy_callback markup entries p) !! id
   = Some (if hit then loadElement markup e else e))
  /\ (elements p !! id = Some (loadElement markup e) ->
      elements (lazy_callback markup entries p) !! id
      = Some (loadElement markup e))
  /\ (id ∈ observed (lazy_callback markup entries p) <->
      id ∈ observed p /\ hit = false).
Proof.
  cbv zeta. unfold lazy_callback. revert p e.
  induction entries as [|i entries IH]; intros p e; cbn [fold_left existsb].
  - split; [auto | split; [auto |]]. split; [auto | intros [H _]; exact H].
  - unfold on_intersection at 2 4 6.
    destruct (isIntersecting i) eqn:Hi; cbn [andb].
    + destruct (Nat.eqb_spec (target i) id) as [Heq|Hne]; cbn [orb].
      * subst id. split; [| split].
        -- intros He.
           destruct (IH (mkLazyPage
                           (alter (loadElement markup) (target i) (elements p))
                           (observed p ∖ {[target i]})) e) as [_ [Hkeep _]].
           rewrite Hkeep; [reflexivity |]. cbn [elements].
           rewrite lookup_alter_eq, He. reflexivity.
        -- intros He.
           destruct (IH (mkLazyPage
                           (alter (loadElement markup) (target i) (elements p))
                           (observed p ∖ {[target i]})) e) as [_ [Hkeep _]].
           apply Hkeep. cbn [elements].
           rewrite lookup_alter_eq, He. cbn. rewrite loadElement_twice.
           reflexivity.
        -- destruct (IH (mkLazyPage
                           (alter (loadElement markup) (target i) (elements p))
                           (observed p ∖ {[target i]})) e) as [_ [_ Hobs]].
           rewrite Hobs. cbn [observed].
           rewrite elem_of_difference, elem_of_singleton.
           split; [intros [[_ H] _]; contradiction | intros [_ H]; discriminate].
      * destruct (IH (mkLazyPage
                        (alter (loadElement markup) (target i) (elements p))
                        (observed p ∖ {[target i]})) e) as [H1 [H2 H3]].
        cbn [elements observed] in *.
        rewrite lookup_alter_ne in H1, H2 by exact Hne.
        split; [exact H1 | split; [exact H2 |]].
        rewrite H3, elem_of_difference, elem_of_singleton.
        split; [intros [[H _] Hh]; auto | intros [H Hh]; auto].
    + cbn [orb]. apply IH.
Qed.

Lemma lazy_session_concat batches p :
  lazy_session markup batches p = lazy_callback markup (concat batches) p.
Proof.
  unfold lazy_session, lazy_callback. revert p.
  induction batches as [|b batches IH]; intros p; cbn [fold_left concat].
  - reflexivity.
  - rewrite fold_left_app. apply IH.
Qed.

(** X20: deferred elements are activated once.  However often and in
    however many callbacks an element is reported, it ends as one
    application of [loadElement] to what it was when it was reported
    intersecting at least once, and as it was otherwise; it stops being
    observed exactly when it has been reported intersecting. *)
Theorem lazy_elements_load_once (batches : list (list Intersection))
  (p : LazyPage) (id : nat) (e : LazyElement) :
  elements p !! id = Some e ->
  let hit := existsb (fun i => isIntersecting i && Nat.eqb (target i) id)
               (concat batches) in
  elements (lazy_session markup batches p) !! id
  = Some (if hit then loadElement markup e else e)
  /\ (id ∈ observed (lazy_session markup batches p) <->
      id ∈ observed p /\ hit = false).
Proof.
  intros He. cbv zeta. rewrite lazy_session_concat.
  destruct (lazy_callback_state (concat batches) p id e) as [H1 [_ H3]].
  split; [apply H1; exact He | exact H3].
Qed.

End LazyLoadCoverage.

Section LazyLoadExample.
Import LazyLoad.

Lemma load_element_once_witness :
  loadElement serialised
    (mkLazyElement "img" (Some "/image/hero.png") (Some "") None ""
       ["hero"])
  = mkLazyElement "img" None (Some "") (Some "/image/hero.png") ""
      ["hero"; "loaded"]
  /\ src
       (loadElement serialised
          (mkLazyElement "img" (Some "/image/hero.png") (Some "") None ""
             ["hero"]))
     = Some "/image/hero.png"
  /\ innerHTML
       (loadElement serialised
          (mkLazyElement "div" None (Some "<p>later</p>") None "" []))
     = "<p>later</p>".
Proof.
  split; [reflexivity |].
  destruct (load_element_once serialised
              (mkLazyElement "img" (Some "/image/hero.png") (Some "") None ""
                 ["hero"]))
    as [_ [_ [_ [_ [_ [_ [Hsrc _]]]]]]].
  destruct (load_element_once serialised
              (mkLazyElement "div" None (Some "<p>later</p>") None "" []))
    as [_ [_ [_ [_ [_ [_ [_ [_ [Hlazy _]]]]]]]]].
  destruct Hsrc as [H _]; [reflexivity |].
  destruct Hlazy as [[content [Hc Hinner]] _]; [reflexivity |].
  split; [exact H |].
  rewrite Hinner. injection Hc as <-. reflexivity.
Defined.

Lemma lazy_elements_load_once_witness :
  let hero :=
    mkLazyElement "img" (Some "/image/hero.png") None None "" [] in
  let p := mkLazyPage {[ 7%nat := hero ]} {[ 7%nat ]} in
  elements
    (lazy_session serialised
       [[mkIntersection 7 false]; [mkIntersection 7 true];
        [mkIntersection 7 true]] p) !! 7%nat
  = Some (loadElement serialised hero).
Proof.
  intros hero p.
  destruct (lazy_elements_load_once serialised
              [[mkIntersection 7 false]; [mkIntersection 7 true];
               [mkIntersection 7 true]] p 7%nat hero) as [H _];
    [vm_compute; reflexivity | exact H].
Defined.

End LazyLoadExample.

(** ** Cache-first over consecutive calls, and the claim of clients *)

Section WorkerSequences.
Import JsString Platform ServiceWorker Effects Examples Invariant.

(** X18: cache-first over two calls for the same request.  On a miss the
    response of the timed fetch is stored whatever its status, a partial
    response (status 206) apart, so the next call returns it, at once, even
    when it is an error page; when the fetch of a miss failed, or was
    answered with a partial response, nothing was stored.  On a hit the
    next call returns the response of the background refresh when that had
    status 200, and the copy it had otherwise. *)
Theorem cache_first_next_call (net1 net2 : Network) (request : Request)
  (name : string) (w : World) :
  let w1 := (cacheFirstStrategy net1 request name w).2 in
  let out := cacheFirstStrategy net2 request name w1 in
  let u := url request in
  (stored w name u = None ->
     (forall r, resolves_within net1 u DEFAULT_TIMEOUT r ->
        (status r <> 206%Z ->
           out.1 = Fulfilled r /\ clock out.2 = clock w1)
        /\ (status r = 206%Z -> stored w1 name u = None))
     /\ (fails_within net1 u DEFAULT_TIMEOUT -> stored w1 name u = None))
  /\ (forall cached, stored w name u = Some cached ->
        (forall r, settled (net1 u) = Resolves r -> status r = 200%Z ->
           out.1 = Fulfilled r)
        /\ ((forall r, settled (net1 u) = Resolves r -> status r <> 200%Z) ->
            out.1 = Fulfilled cached)).
Proof.
  cbv zeta. split.
  - intros Hmiss. split.
    + intros r Hres. split.
      * intros Hs. apply cacheFirst_hit_result.
        rewrite (cacheFirst_miss_resolves net1 _ _ _ _ Hmiss Hres).
        unfold stored. cbn [snd]. autorewrite with world.
        cbn [caches with_caches with_clock log_fetch].
        apply accepted_spec in Hs. rewrite Hs.
        apply entry_put_eq, ensure_is_Some.
      * intros Hs.
        rewrite (cacheFirst_miss_resolves net1 _ _ _ _ Hmiss Hres).
        unfold stored. cbn [snd]. autorewrite with world.
        cbn [caches with_caches with_clock log_fetch].
        apply refused_spec in Hs. rewrite Hs.
        rewrite entry_ensure. exact Hmiss.
    + intros Hfail. rewrite (cacheFirst_miss_fails net1 _ _ _ Hmiss Hfail).
      unfold stored. cbn [snd caches with_caches with_clock log_fetch].
      rewrite entry_ensure. exact Hmiss.
  - intros cached Hhit. split.
    + intros r Hr H200. apply cacheFirst_hit_result.
      rewrite (cacheFirst_hit net1 _ _ _ _ Hhit), Hr. unfold stored.
      cbn [snd caches with_caches log_fetch].
      apply Z.eqb_eq in H200. rewrite H200.
      apply entry_put_eq. eapply entry_present. exact Hhit.
    + intros Hnot. apply cacheFirst_hit_result.
      rewrite (cacheFirst_hit net1 _ _ _ _ Hhit). unfold stored.
      cbn [snd caches with_caches log_fetch].
      destruct (settled (net1 (url request))) as [r|e] eqn:Hr;
        [| exact Hhit].
      specialize (Hnot r eq_refl). apply Z.eqb_neq in Hnot. rewrite Hnot.
      exact Hhit.
Qed.

Lemma cache_first_next_call_witness :
  let request := request_of "example.com" "/index.html" "document" in
  (cacheFirstStrategy online request CRITICAL_CACHE
     (cacheFirstStrategy missing request CRITICAL_CACHE fresh).2).1
  = Fulfilled not_found
  /\ (cacheFirstStrategy offline request CRITICAL_CACHE
        (cacheFirstStrategy missing request CRITICAL_CACHE
           (holding CRITICAL_CACHE (url request) older)).2).1
     = Fulfilled older.
Proof.
  intros request.
  destruct (cache_first_next_call missing online request CRITICAL_CACHE fresh)
    as [Hmiss _].
  destruct Hmiss as [Hstored _]; [vm_compute; reflexivity |].
  destruct (Hstored not_found) as [Hkept _];
    [split; [reflexivity | vm_compute; discriminate] |].
  destruct Hkept as [Hret _]; [vm_compute; discriminate |].
  destruct (cache_first_next_call missing offline request CRITICAL_CACHE
              (holding CRITICAL_CACHE (url request) older)) as [_ Hhit].
  destruct (Hhit older) as [_ Hkept']; [vm_compute; reflexivity |].
  split; [exact Hret | apply Hkept'].
  intros r Hr. vm_compute in Hr. injection Hr as <-.
  vm_compute. discriminate.
Defined.

(** X19: activation always claims the open pages, whether or not its
    warm-up fetches succeed, and it is the only place where the worker does
    so: install, the messages and the serving of requests leave the claim
    as it was. *)
Theorem clients_claimed_by_activate (net : Network) (host : string)
  (w : World) :
  (on_activate net w).1 = Fulfilled tt
  /\ claimed (on_activate net w).2 = true
  /\ claimed (on_install net w).2 = claimed w
  /\ (forall m, claimed (on_message net m w).2 = claimed w)
  /\ (forall request,
        claimed (handleRequest net host request w).2 = claimed w).
Proof.
  rewrite on_activate_run. cbn [fst snd claimed].
  split; [reflexivity | split; [reflexivity | split; [| split]]].
  - destruct (forallb (resolves_ok net) (map (resolve w) PRECACHE_URLS))
      eqn:Hall.
    + destruct (on_install_ok net w Hall) as [t ->]. reflexivity.
    + destruct (on_install_fail net w Hall) as [e [t ->]]. reflexivity.
  - intros [| u | routes | | type].
    + reflexivity.
    + rewrite on_message_cache_page. reflexivity.
    + rewrite on_message_prefetch. reflexivity.
    + reflexivity.
    + reflexivity.
  - intros request.
    destruct (handleRequest_effect net host request w)
      as [name [_ [_ [_ [_ [Hc _]]]]]].
    exact Hc.
Qed.

End WorkerSequences.
